(** * Anchor autocalibration solver (scripts/AutocalibrationSolver.py)

    A shallow embedding of the two-stage solver and of the caller's
    calibration loop (scripts/autocalibration_solver.py).

    - Floating point numbers are idealised as exact rationals ([Qc], the
      canonical rationals, so that numeric equality is Leibniz equality).
    - numpy arrays are row-major lists; the coordinate arrays, which the
      solver copies, aliases and writes in place, live in a store of
      buffers and are handled through their location.
    - numpy and scipy routines whose code is not part of the repository
      ([np.sqrt], [np.median], [np.percentile], [np.linalg.pinv],
      [scipy.optimize.fmin]) are the fields of the class [Libs]. *)

From Stdlib Require Import ZArith QArith Qcanon Qround Lia.
From Stdlib Require Qcabs.
From stdpp Require Import base list numbers option sorting strings.

Local Open Scope Qc_scope.

(** ** Numbers and arrays *)

Abbreviation vector := (list Qc) (only parsing).
Abbreviation matrix := (list (list Qc)) (only parsing).
(** [samples_ijk]: observer anchor, sample index, target anchor. *)
Abbreviation cube := (list (list (list Qc))) (only parsing).

Definition num (z : Z) : Qc := Qc_of_Z z.
Definition frac (n : Z) (d : positive) : Qc := Q2Qc (n # d).

(** [x ** 2] *)
Definition sq (x : Qc) : Qc := x * x.

(** [np.sum] over a one-dimensional array *)
Definition vsum (v : vector) : Qc := foldr Qcplus 0 v.

Definition vsub (u v : vector) : vector := zip_with Qcminus u v.
Definition msub (a b : matrix) : matrix := zip_with vsub a b.

(** [m[i, k]]; [None] stands for the IndexError *)
Definition lookup2 (m : matrix) (i k : nat) : option Qc :=
  row ← m !! i; row !! k.

(** the last element, [a[-1]], and all but the last, [a[:-1]] *)
Definition but_last {A} (l : list A) : list A := take (length l - 1) l.

(** [np.dot] of a matrix and a one-dimensional array *)
Definition dot (p : matrix) (b : vector) : vector :=
  map (λ row, vsum (zip_with Qcmult row b)) p.

(** [for i in range(n)] threading a state *)
Definition for_range {S} (n : nat) (body : nat → S → S) (s : S) : S :=
  foldl (λ s i, body i s) s (seq 0 n).

(** [a[i] = x] on a two-dimensional array: the row must exist and [x] must
    have its width (IndexError and ValueError otherwise). *)
Definition set_row (m : matrix) (i : nat) (x : vector) : option matrix :=
  row ← m !! i;
  if bool_decide (length x = length row) then Some (<[i := x]> m) else None.

(** [a.reshape(n, c)] of a flat buffer *)
Fixpoint reshape (n c : nat) (flat : vector) : matrix :=
  match n with
  | O => []
  | S n' => take c flat :: reshape n' c (drop c flat)
  end.

(** [a.T] of a two-dimensional array *)
Definition transpose (a : matrix) : matrix :=
  match a with
  | [] => []
  | r :: _ => map (λ c, map (λ row, default 0 (row !! c)) a) (seq 0 (length r))
  end.

(** [a.T.reshape(-1, 3)]: the elements of the transposed array read in row
    order and regrouped in threes; ValueError unless their number is a
    multiple of three. *)
Definition T_reshape3 (a : matrix) : option matrix :=
  let flat := concat (transpose a) in
  if bool_decide (length flat `mod` 3 = 0)%nat
  then Some (reshape (length flat `div` 3) 3 flat)
  else None.

(** [a[mask] = b[mask]] with a boolean mask over the rows *)
Definition pin (mask : list bool) (b a : matrix) : matrix :=
  imap (λ i row, match mask !! i, b !! i with
                 | Some true, Some r => r
                 | _, _ => row
                 end) a.

(** python indexing with a possibly negative index *)
Definition py_index (len : nat) (z : Z) : option nat :=
  if bool_decide (0 ≤ z < Z.of_nat len)%Z then Some (Z.to_nat z)
  else if bool_decide (- Z.of_nat len ≤ z < 0)%Z then Some (Z.to_nat (Z.of_nat len + z))
  else None.

(** ** External routines *)

Class Libs := {
  (** [np.sqrt] *)
  np_sqrt : Qc → Qc;
  (** [np.median] of a one-dimensional array *)
  np_median : vector → Qc;
  (** [np.percentile(a, q)] of a one-dimensional array; [q] is a percentage
      between 0 and 100 *)
  np_percentile : vector → Qc → Qc;
  (** [np.linalg.pinv] *)
  np_pinv : matrix → matrix;
  (** [scipy.optimize.fmin(func, x0)]: [func] maps the probed vector to the
      vector it leaves behind (the callback writes into its argument) and
      the cost. *)
  fmin : (vector → vector * Qc) → vector → vector
}.

(** [np.linalg.norm] of a two-dimensional array (Frobenius norm) *)
Definition np_linalg_norm `{Libs} (m : matrix) : Qc :=
  np_sqrt (vsum (map sq (concat m))).

(** ** The store of coordinate buffers *)

Abbreviation loc := nat (only parsing).
Abbreviation heap := (list (list (list Qc))) (only parsing).

(** Computations read and write the store and may raise. *)
Definition M (A : Type) : Type := heap → option (A * heap).

Definition ret {A} (x : A) : M A := λ h, Some (x, h).
Definition bind {A B} (m : M A) (f : A → M B) : M B :=
  λ h, match m h with
       | Some (x, h') => f x h'
       | None => None
       end.
Definition raise {A} : M A := λ _, None.
Definition lift {A} (o : option A) : M A := λ h, x ← o; Some (x, h).

Declare Scope heap_scope.
Delimit Scope heap_scope with heap.
Notation "'do' x <- m ; f" := (bind m (λ x, f))
  (at level 10, x name, m at level 100, f at level 200) : heap_scope.
Notation "'do' ' p <- m ; f" := (bind m (λ x, match x with p => f end))
  (at level 10, p pattern, m at level 100, f at level 200) : heap_scope.
Notation "m ;; f" := (bind m (λ _, f))
  (at level 100, f at level 200, right associativity) : heap_scope.
Local Open Scope heap_scope.

Definition load (l : loc) : M matrix := λ h, m ← h !! l; Some (m, h).
Definition store (l : loc) (m : matrix) : M unit :=
  λ h, _ ← h !! l; Some ((), <[l := m]> h).
Definition alloc (m : matrix) : M loc := λ h, Some (length h, h ++ [m]).

(** [np.copy(a)] *)
Definition np_copy (l : loc) : M loc := do m <- load l; alloc m.

(** [a[k]] read, and [a[i] = x] written in place *)
Definition load_row (l : loc) (k : nat) : M vector :=
  do m <- load l; lift (m !! k).
Definition store_row (l : loc) (i : nat) (x : vector) : M unit :=
  do m <- load l; do m' <- lift (set_row m i x); store l m'.

(** [if b: m] for a statement whose value is dropped *)
Definition when_ {A} (b : bool) (m : M A) : M unit :=
  if b then m;; ret () else ret ().

(** [for i in range(n)] with effects *)
Fixpoint for_each {S} (idxs : list nat) (body : nat → S → M S) (s : S) : M S :=
  match idxs with
  | [] => ret s
  | i :: idxs' => do s' <- body i s; for_each idxs' body s'
  end.

(** ** The solver object *)

Record AutocalibrationSolver := {
  samples_ijk : cube;
  initial_guess : loc;
  autocalibrated_coords : loc;
  fixed_anchors : list bool;
  max_iters : nat;
  convergence_thresh : Qc;
  LSq_min_anchors : Z;
  lower_percentile : Qc;
  upper_percentile : Qc;
  verbose : bool
}.

(** Default values of the keyword arguments of [__init__]. *)
Definition default_max_iters : nat := 1500.
Definition default_convergence_thresh : Qc := frac 1 100.
Definition default_LSq_min_anchors : Z := 4.
Definition default_lower_percentile : Qc := frac 25 100.
Definition default_upper_percentile : Qc := frac 75 100.

(** [__init__]: the coordinate estimate starts as an alias of the initial
    guess. *)
Definition init (autocalibration_samples : cube) (guess : loc) (fixed : list bool)
    (iters : nat) (thresh : Qc) (min_anchors : Z) (lower upper : Qc) (verb : bool)
  : AutocalibrationSolver :=
  {| samples_ijk := autocalibration_samples;
     initial_guess := guess;
     autocalibrated_coords := guess;
     fixed_anchors := fixed;
     max_iters := iters;
     convergence_thresh := thresh;
     LSq_min_anchors := min_anchors;
     lower_percentile := lower;
     upper_percentile := upper;
     verbose := verb |}.

Definition set_autocalibrated_coords (self : AutocalibrationSolver) (l : loc)
  : AutocalibrationSolver :=
  {| samples_ijk := samples_ijk self;
     initial_guess := initial_guess self;
     autocalibrated_coords := l;
     fixed_anchors := fixed_anchors self;
     max_iters := max_iters self;
     convergence_thresh := convergence_thresh self;
     LSq_min_anchors := LSq_min_anchors self;
     lower_percentile := lower_percentile self;
     upper_percentile := upper_percentile self;
     verbose := verbose self |}.

Global Instance AutocalibrationSolver_eq_dec : EqDecision AutocalibrationSolver.
Proof. solve_decision. Defined.

(** ** [coordinatesOpt] *)

Section Solver.
Context `{L : Libs}.

(** The loop [for i in range(A.shape[0] - 1): A[i] = A[-1] - A[i]]. *)
Definition build_A_loop (A : matrix) : matrix :=
  for_range (length A - 1)
    (λ i A, match last A, A !! i with
            | Some a_last, Some a_i => <[i := vsub a_last a_i]> A
            | _, _ => A
            end) A.

(** [anchors_coords] is a [(K, 3)] array and [ranges] a [(K, )] array, as
    the docstring says and [stageOne] passes them; [None] stands for the
    IndexError of [B[-1]] when there is no neighbour at all. *)
Definition coordinatesOpt (anchors_coords : matrix) (ranges : vector) : option vector :=
  (* build A matrix *)
  let A := map (map (Qcmult 2)) anchors_coords in
  let A := build_A_loop A in
  let A := but_last A in
  (* build B matrix *)
  let B := map sq ranges in
  B_last ← last B;
  c_last ← last anchors_coords;
  let norms := map (λ c, vsum (map sq c)) anchors_coords in
  let B := zip_with (λ b n, b - B_last - n + vsum (map sq c_last))
                    (but_last B) (but_last norms) in
  Some (dot (np_pinv A) B).

(** ** Sample aggregation (the head of [stageOne] and [stageTwo]) *)

(** [self.samples_ijk[i, :, k]], given the plane [self.samples_ijk[i]] *)
Definition column (plane : matrix) (k : nat) : option vector :=
  mapM (λ row : vector, row !! k) plane.

(** Median mode: the median of the samples [> 0] of every pair, [-1.0]
    where there is none. *)
Definition median_matrix (c : cube) : option matrix :=
  let n_anchors := length c in
  mapM (λ i, plane ← c !! i;
             mapM (λ k, col ← column plane k;
                        let samples := filter (λ x, 0 < x) col in
                        Some (if bool_decide (0 < length samples)%nat
                              then np_median samples else - 1))
                  (seq 0 n_anchors))
       (seq 0 n_anchors).

(** [np.copy(self.samples_ijk[:, sample_idx, :])] *)
Definition sample_slice (c : cube) (sample_idx : nat) : option matrix :=
  mapM (λ plane : matrix, plane !! sample_idx) c.

(** The range matrix [samples_ik] of [stageOne].  [sample_idx] is [None]
    or a non-negative index, as [main] passes it. *)
Definition stageOne_samples (self : AutocalibrationSolver) (sample_idx : option nat)
  : option matrix :=
  match sample_idx with
  | None => median_matrix (samples_ijk self)
  | Some m => sample_slice (samples_ijk self) m
  end.

(** [np.percentile(self.samples_ijk, q, axis = 1)] *)
Definition percentile_axis1 (c : cube) (q : Qc) : option matrix :=
  mapM (λ plane : matrix,
          mapM (λ k, col ← column plane k; Some (np_percentile col q))
               (seq 0 (length (default [] (head plane))))) c.

(** [dst[mask] = src[mask]] on two-dimensional arrays *)
Definition assign_where (mask : list (list bool)) (src dst : matrix) : matrix :=
  zip_with (λ mrow '(srow, drow),
              zip_with (λ (b : bool) '(s, d), if b then s else d) mrow (zip srow drow))
           mask (zip src dst).

(** Single-sample filtered mode of [stageTwo]. *)
Definition filtered_sample (self : AutocalibrationSolver) (sample_idx : nat)
  : option matrix :=
  samples_ik ← sample_slice (samples_ijk self) sample_idx;
  (* filter samples that are considered bad (outside percentiles limits) *)
  lower_bounds ← percentile_axis1 (samples_ijk self) (lower_percentile self);
  upper_bounds ← percentile_axis1 (samples_ijk self) (upper_percentile self);
  let mask1 := zip_with (zip_with (λ s u, bool_decide (s ≤ u))) samples_ik upper_bounds in
  let mask2 := zip_with (zip_with (λ s l, bool_decide (l ≤ s))) samples_ik lower_bounds in
  let mask := zip_with (zip_with andb) mask1 mask2 in
  let _samples_ik := map (map (λ _ : Qc, - 1)) samples_ik in
  Some (assign_where mask samples_ik _samples_ik).

(** The range matrix [_samples_ik] of [stageTwo]. *)
Definition stageTwo_samples (self : AutocalibrationSolver) (sample_idx : option nat)
  : option matrix :=
  match sample_idx with
  | None => median_matrix (samples_ijk self)
  | Some m => filtered_sample self m
  end.

(** ** [stageOne] *)

(** The loop over [k] that gathers the neighbours of anchor [i].  The rows
    appended are views of the coordinate buffer; [np.array] copies them
    before the buffer is written, so their values are read here. *)
Definition gather (coords : loc) (samples_ik : matrix) (n_anchors i : nat)
  : M (matrix * vector) :=
  for_each (seq 0 n_anchors)
    (λ k '(_anchors_coords, _ranges),
       do r <- lift (lookup2 samples_ik i k);
       (* skip if range has not been received (i.e. range == -1) *)
       if bool_decide (r < 0) then ret (_anchors_coords, _ranges)
       else do c <- load_row coords k;
            ret (_anchors_coords ++ [c], _ranges ++ [r]))
    ([], []).

(** The body of the loop over [i]. *)
Definition update_anchor (self : AutocalibrationSolver) (samples_ik : matrix)
    (n_anchors i : nat) (_ : unit) : M unit :=
  do fixed <- lift (fixed_anchors self !! i);
  (* don't update fixed anchor *)
  if fixed : bool then ret ()
  else
    do '(_anchors_coords, _ranges) <- gather (autocalibrated_coords self) samples_ik n_anchors i;
    if bool_decide (LSq_min_anchors self ≤ Z.of_nat (length _anchors_coords))%Z
    then do x <- lift (coordinatesOpt _anchors_coords _ranges);
         store_row (autocalibrated_coords self) i x
    else ret ().

(** [for _ in range(self.max_iters)] with its [break]. *)
Fixpoint stageOne_loop (iters : nat) (self : AutocalibrationSolver)
    (samples_ik : matrix) (n_anchors : nat) : M unit :=
  match iters with
  | O => ret ()
  | S iters' =>
      (* save previous anchors coords for termination condition *)
      do anchors_coords_old <- np_copy (autocalibrated_coords self);
      (* update anchors coords *)
      for_each (seq 0 n_anchors) (update_anchor self samples_ik n_anchors) ();;
      do cur <- load (autocalibrated_coords self);
      do old <- load anchors_coords_old;
      if bool_decide (Qcabs.Qcabs (np_linalg_norm (msub cur old)) < convergence_thresh self)
      then ret ()
      else stageOne_loop iters' self samples_ik n_anchors
  end.

Definition stageOne (self : AutocalibrationSolver) (sample_idx : option nat)
  : M AutocalibrationSolver :=
  let n_anchors := length (samples_ijk self) in
  (* starting point is initial guess *)
  do l <- np_copy (initial_guess self);
  let self := set_autocalibrated_coords self l in
  do samples_ik <- lift (stageOne_samples self sample_idx);
  stageOne_loop (max_iters self) self samples_ik n_anchors;;
  ret self.

(** ** [costOpt] and [stageTwo] *)

(** The array [cost_ij] of [_my_opt_func], once both masks are applied. *)
Definition cost_matrix (ranges_ik Theta : matrix) : matrix :=
  let distances_ij := map (λ ti, map (λ tj, vsum (map sq (vsub ti tj))) Theta) Theta in
  let cost_ij := zip_with (zip_with (λ d r, sq (d - sq r))) distances_ij ranges_ik in
  (* remove j = i costs *)
  let cost_ij := zip_with (zip_with (λ d c, if bool_decide (d = 0) then 0 else c))
                          distances_ij cost_ij in
  (* remove costs computed with invalid ranges (i.e. ranges < 0) *)
  let cost_ij := zip_with (zip_with (λ r c, if bool_decide (r < 0) then 0 else c))
                          ranges_ik cost_ij in
  cost_ij.

(** [_my_opt_func]: the vector it leaves in [Theta] and the cost. *)
Definition my_opt_func (ranges_ik : matrix) (n_anchors : nat)
    (fixed_anchors : list bool) (Theta_init : matrix) (Theta : vector) : vector * Qc :=
  let Theta := reshape n_anchors 3 Theta in
  (* Modify current Theta to keep anchors fixed *)
  let Theta := pin fixed_anchors Theta_init Theta in
  (* compute cost *)
  (concat Theta, vsum (map vsum (cost_matrix ranges_ik Theta))).

(** [anchors_coords.T.reshape(-1, 3)].  numpy returns a view of the same
    buffer when the array has at most one row and a fresh array otherwise. *)
Definition T_reshape3_array (anchors_coords : loc) : M loc :=
  do a <- load anchors_coords;
  do a' <- lift (T_reshape3 a);
  if bool_decide ((length a ≤ 1)%nat ∧ a' = a) then ret anchors_coords else alloc a'.

(** A direct call [_my_opt_func(a, *args)] on a stored array: the callback
    writes into it. *)
Definition call_in_place (func : vector → vector * Qc) (n_anchors : nat) (a : loc)
  : M Qc :=
  do x <- load a;
  let '(x', cost) := func (concat x) in
  store a (reshape n_anchors 3 x');;
  ret cost.

Definition costOpt (anchors_coords : loc) (ranges_ik : matrix)
    (fixed_anchors : list bool) (verbose : bool) : M loc :=
  do anchors_coords <- T_reshape3_array anchors_coords;
  do Theta_init <- np_copy anchors_coords;
  do shape <- load anchors_coords;
  let n_anchors := length shape in
  do Theta_init_v <- load Theta_init;
  let func := my_opt_func ranges_ik n_anchors fixed_anchors Theta_init_v in
  when_ verbose (call_in_place func n_anchors anchors_coords);;
  do x0 <- load anchors_coords;
  let xopt := fmin func (concat x0) in
  (* Theta_opt.reshape(anchors_coords.shape) needs n_anchors * 3 values *)
  if bool_decide (length xopt = n_anchors * 3)%nat then
    do Theta_opt <- alloc (reshape n_anchors 3 xopt);
    when_ verbose (call_in_place func n_anchors Theta_opt);;
    do t <- load Theta_opt;
    store Theta_opt (pin fixed_anchors Theta_init_v t);;
    ret Theta_opt
  else raise.

(** The values of the array [costOpt] returns, as a function of the
    values [a'] of [anchors_coords.T.reshape(-1, 3)]; it summarises
    [costOpt] in the statements about its effect on the store. *)
Definition costOpt_result (ranges_ik : matrix) (fixed_anchors : list bool) (a' : matrix)
  : option matrix :=
  let n_anchors := length a' in
  let func := my_opt_func ranges_ik n_anchors fixed_anchors a' in
  let xopt := fmin func (concat a') in
  if bool_decide (length xopt = n_anchors * 3)%nat
  then Some (pin fixed_anchors a' (reshape n_anchors 3 xopt))
  else None.

(** The cost [_my_opt_func] computes on the coordinates [Θ] themselves
    (nothing pinned). *)
Definition stage2_cost (ranges_ik Θ : matrix) : Qc :=
  (my_opt_func ranges_ik (length Θ) [] [] (concat Θ)).2.

Definition stageTwo (self : AutocalibrationSolver) (sample_idx : option nat) : M loc :=
  do _samples_ik <- lift (stageTwo_samples self sample_idx);
  (* optimization based on scipy.optimize.fmin *)
  costOpt (autocalibrated_coords self) _samples_ik (fixed_anchors self) (verbose self).

(** ** [estimationError] *)

Inductive ndarray :=
  | Arr1 (v : vector)
  | Arr2 (m : matrix).

Global Instance ndarray_eq_dec : EqDecision ndarray.
Proof. solve_decision. Defined.

Definition estimationError (self : AutocalibrationSolver) (gt : loc) (axis : option Z)
  : M ndarray :=
  do est <- load (autocalibrated_coords self);
  do g <- load gt;
  match axis with
  | Some ax =>
      let est_error := msub est g in
      do col <- lift (mapM (λ row : vector, k ← py_index (length row) ax; row !! k)
                           est_error);
      ret (Arr1 col)
  | None =>
      ret (Arr2 (map (λ e, map (λ t, np_sqrt (vsum (map sq (vsub e t)))) g) est))
  end.

(** ** The caller's loop body (autocalibration_solver.py, [main]) *)

(** One calibration run for sample [j]; the run's output is the copy of
    [autocalibration_solver.autocalibrated_coords] stored in
    [autocalibrated_coords_j[:, :, j]]. *)
Definition calibration_run (solver : AutocalibrationSolver) (j : nat)
  : M (AutocalibrationSolver * loc) :=
  do solver <- stageOne solver (Some j);
  stageTwo solver (Some j);;
  do out <- np_copy (autocalibrated_coords solver);
  ret (solver, out).

End Solver.

(** ** The specification's algorithms, in the specification's words *)

Module Spec.
Section Spec.
Context `{L : Libs}.

(** Squared Euclidean norm of a coordinate. *)
Definition norm2 (c : vector) : Qc := vsum (map sq c).

(** 4.2.1: the matrix whose row [i] is [2 (coord[K-1] - coord[i])], for the
    [K - 1] neighbours before the reference. *)
Definition A (coord : matrix) : matrix :=
  let K := length coord in
  map (λ i, map (Qcmult 2) (vsub (default [] (coord !! (K - 1)%nat)) (default [] (coord !! i))))
      (seq 0 (K - 1)%nat).

(** 4.2.1: [b[i] = range[i]^2 - range[K-1]^2 - |coord[i]|^2 + |coord[K-1]|^2]. *)
Definition b (coord : matrix) (range : vector) : vector :=
  let K := length coord in
  map (λ i, sq (default 0 (range !! i)) - sq (default 0 (range !! (K - 1)%nat))
            - norm2 (default [] (coord !! i)) + norm2 (default [] (coord !! (K - 1)%nat)))
      (seq 0 (K - 1)%nat).

(** 4.2.1: the solution of [A x ≈ b] by the pseudo-inverse. *)
Definition multilaterate (coord : matrix) (range : vector) : vector :=
  dot (np_pinv (A coord)) (b coord range).

(** 4.3: the cost, a sum over the ordered pairs [(i, j)], [i ≠ j], with
    [rangeMatrix[i,j] ≥ 0]. *)
Definition cost_term (rangeMatrix Θ : matrix) (i j : nat) : Qc :=
  sq (norm2 (vsub (default [] (Θ !! i)) (default [] (Θ !! j)))
      - sq (default 0 (lookup2 rangeMatrix i j))).

Definition valid_pair (rangeMatrix : matrix) (p : nat * nat) : Prop :=
  p.1 ≠ p.2 ∧ 0 ≤ default 0 (lookup2 rangeMatrix p.1 p.2).

Global Instance valid_pair_dec rangeMatrix p : Decision (valid_pair rangeMatrix p).
Proof. unfold valid_pair. apply _. Defined.

Definition cost (rangeMatrix Θ : matrix) : Qc :=
  let N := length Θ in
  vsum (map (λ p, cost_term rangeMatrix Θ p.1 p.2)
            (filter (valid_pair rangeMatrix)
                    (i ← seq 0 N; j ← seq 0 N; [(i, j)]))).

(** 4.2 step b, the neighbours of anchor [i]: every anchor [k ≠ i] with
    [rangeMatrix[i,k] ≥ 0], with its current coordinate and its range. *)
Definition neighbour (rangeMatrix est : matrix) (i k : nat)
  : option (option (vector * Qc)) :=
  r ← lookup2 rangeMatrix i k;
  if bool_decide (k ≠ i ∧ 0 ≤ r)
  then c ← est !! k; Some (Some (c, r))
  else Some None.

Definition neighbours (rangeMatrix est : matrix) (N i : nat)
  : option (list (vector * Qc)) :=
  nbs ← mapM (neighbour rangeMatrix est i) (seq 0 N);
  Some (omap id nbs).

Section Refine.
Variable solve : matrix → vector → option vector.
Variables (rangeMatrix : matrix) (fixedMask : list bool).
Variables (convergenceThresh : Qc) (minAnchorsForSolve : Z).

Let N := length rangeMatrix.

(** 4.2 step b for one anchor. *)
Definition update (est : matrix) (i : nat) : option matrix :=
  fixed ← fixedMask !! i;
  if fixed : bool then Some est
  else
    nbs ← neighbours rangeMatrix est N i;
    if bool_decide (minAnchorsForSolve ≤ Z.of_nat (length nbs))%Z
    then x ← solve (nbs.*1) (nbs.*2); set_row est i x
    else Some est.

(** 4.2 step b: the anchors in index order, each update written back at
    once. *)
Fixpoint update_all (idxs : list nat) (est : matrix) : option matrix :=
  match idxs with
  | [] => Some est
  | i :: idxs' => est' ← update est i; update_all idxs' est'
  end.

(** 4.2 step c: the Euclidean norm of the change over all values. *)
Definition change (current previous : matrix) : Qc :=
  np_sqrt (vsum (map sq (concat (msub current previous)))).

(** 4.2 step 2: at most [t] iterations, with early termination. *)
Fixpoint iterate (t : nat) (est : matrix) : option matrix :=
  match t with
  | O => Some est
  | S t' =>
      let previous := est in
      est ← update_all (seq 0 N) est;
      if bool_decide (change est previous < convergenceThresh) then Some est
      else iterate t' est
  end.

End Refine.

(** 4.2: [refine], with the multilateration subroutine [solve]. *)
Definition refine (solve : matrix → vector → option vector)
    (rangeMatrix initialGuess : matrix) (fixedMask : list bool)
    (maxIters : nat) (convergenceThresh : Qc) (minAnchorsForSolve : Z)
  : option matrix :=
  iterate solve rangeMatrix fixedMask convergenceThresh minAnchorsForSolve
          maxIters initialGuess.

End Spec.
End Spec.

(** ** Executable instances of the external routines

    Used to run the model on concrete inputs. *)

Module Standin.

(** Integer square root of the integer part: a non-negative stand-in for
    [np.sqrt], exact on perfect squares. *)
Definition sqrt_floor (x : Qc) : Qc := num (Z.sqrt (Qfloor x)).

(** numpy's default (linear interpolation) percentile of a one-dimensional
    array: position [q / 100 * (M - 1)] in the sorted data. *)
Definition percentile_linear (a : vector) (q : Qc) : Qc :=
  let s := merge_sort Qcle a in
  let pos := num (Z.of_nat (length s - 1)%nat) * q / num 100 in
  let lo := Qfloor pos in
  let x0 := default 0 (s !! Z.to_nat lo) in
  let x1 := default x0 (s !! S (Z.to_nat lo)) in
  x0 + (pos - num lo) * (x1 - x0).

Definition median (a : vector) : Qc := percentile_linear a (num 50).

(** The pseudo-inverse of a matrix with a single row [a], which is the
    column [a / (a . a)] (zero when [a] is zero); for other matrices, a
    matrix of zeros with the shape of the pseudo-inverse. *)
Definition pinv_one_row (a : matrix) : matrix :=
  match a with
  | [row] => map (λ x, [x / vsum (map sq row)]) row
  | _ => replicate (length (default [] (head a))) (replicate (length a) 0)
  end.

(** A direct search that tries one unit step along every axis, in both
    directions, and keeps the best point seen: it never returns a point
    that costs more than the start. *)
Definition fmin_probe (func : vector → vector * Qc) (x0 : vector) : vector :=
  foldl (λ best cand, if bool_decide ((func cand).2 < (func best).2) then cand else best)
        x0
        (k ← seq 0 (length x0);
         [alter (λ x, x + 1) k x0; alter (λ x, x - 1) k x0]).

Definition libs : Libs :=
  {| np_sqrt := sqrt_floor;
     np_median := median;
     np_percentile := percentile_linear;
     np_pinv := pinv_one_row;
     fmin := fmin_probe |}.

End Standin.

(** ** The values [stageOne] computes

    [stageOne] as a function of the values of the initial guess; these
    functions summarise its effect on the store in the statements below. *)

Section StageOneValues.
Context `{L : Libs}.

(** What the loop over [k] gathers for anchor [i] from the estimate [est]. *)
Definition gather_value (samples_ik est : matrix) (n_anchors i : nat)
  : option (matrix * vector) :=
  found ← mapM (λ k, r ← lookup2 samples_ik i k;
                     if bool_decide (r < 0) then Some None
                     else c ← est !! k; Some (Some (c, r)))
               (seq 0 n_anchors);
  Some ((omap id found).*1, (omap id found).*2).

(** The body of the loop over [i]. *)
Definition update_value (fixed_anchors : list bool) (LSq_min_anchors : Z)
    (samples_ik : matrix) (n_anchors : nat) (est : matrix) (i : nat) : option matrix :=
  fixed ← fixed_anchors !! i;
  if fixed : bool then Some est
  else
    '(cs, rs) ← gather_value samples_ik est n_anchors i;
    if bool_decide (LSq_min_anchors ≤ Z.of_nat (length cs))%Z
    then x ← coordinatesOpt cs rs; set_row est i x
    else Some est.

(** One pass over the anchors [idxs]. *)
Fixpoint pass_value (fixed_anchors : list bool) (LSq_min_anchors : Z)
    (samples_ik : matrix) (n_anchors : nat) (idxs : list nat) (est : matrix)
  : option matrix :=
  match idxs with
  | [] => Some est
  | i :: idxs' =>
      est' ← update_value fixed_anchors LSq_min_anchors samples_ik n_anchors est i;
      pass_value fixed_anchors LSq_min_anchors samples_ik n_anchors idxs' est'
  end.

(** At most [iters] passes, with the early exit. *)
Fixpoint loop_value (iters : nat) (fixed_anchors : list bool) (LSq_min_anchors : Z)
    (convergence_thresh : Qc) (samples_ik : matrix) (n_anchors : nat) (est : matrix)
  : option matrix :=
  match iters with
  | O => Some est
  | S iters' =>
      cur ← pass_value fixed_anchors LSq_min_anchors samples_ik n_anchors
                       (seq 0 n_anchors) est;
      if bool_decide (Qcabs.Qcabs (np_linalg_norm (msub cur est)) < convergence_thresh)
      then Some cur
      else loop_value iters' fixed_anchors LSq_min_anchors convergence_thresh
                      samples_ik n_anchors cur
  end.

Definition stageOne_value (self : AutocalibrationSolver) (sample_idx : option nat)
    (guess : matrix) : option matrix :=
  samples_ik ← stageOne_samples self sample_idx;
  loop_value (max_iters self) (fixed_anchors self) (LSq_min_anchors self)
             (convergence_thresh self) samples_ik (length (samples_ijk self)) guess.

End StageOneValues.

(** ** The caller's fixed-anchor mask and range cube
    (autocalibration_solver.py, [main] and [getData]) *)

Section Mask.
Context {Id : Type} `{EqDecision Id}.

(** [l.index(x)]: the first position of [x]; [None] stands for the
    ValueError. *)
Definition list_index (x : Id) (l : list Id) : option nat :=
  fst <$> list_find (λ y, y = x) l.

(** The loop of [main] that builds the fixed-anchor mask; ids that are not
    in [anchor_id_list] are skipped. *)
Definition build_fixed_mask (anchor_id_list fixed_anchor_id_list : list Id) : list bool :=
  foldl (λ fixed_anchors fixed_anchor_id,
           match list_index fixed_anchor_id anchor_id_list with
           | Some i => <[i := true]> fixed_anchors
           | None => fixed_anchors
           end)
        (replicate (length anchor_id_list) false)
        fixed_anchor_id_list.

End Mask.

(** What [np.loadtxt] returns: a 0-, 1- or 2-dimensional array. *)
Inductive loaded :=
  | Loaded0 (x : Qc)
  | Loaded1 (v : list Qc)
  | Loaded2 (m : list (list Qc)).

(** [a[1:]]; a 0-dimensional array cannot be sliced (IndexError). *)
Definition drop_first (a : loaded) : option loaded :=
  match a with
  | Loaded0 _ => None
  | Loaded1 v => Some (Loaded1 (drop 1 v))
  | Loaded2 m => Some (Loaded2 (drop 1 m))
  end.

(** numpy's broadcasting of a row to [n] columns, and of an array to an
    [s x n] plane, in the assignment [autocalibration_samples[i] = a];
    [None] stands for the ValueError. *)
Definition broadcast_row (n : nat) (v : vector) : option vector :=
  if bool_decide (length v = n) then Some v
  else match v with
       | [x] => Some (replicate n x)
       | _ => None
       end.

Definition broadcast_plane (s n : nat) (a : loaded) : option matrix :=
  match a with
  | Loaded0 x => Some (replicate s (replicate n x))
  | Loaded1 v => row ← broadcast_row n v; Some (replicate s row)
  | Loaded2 m =>
      rows ← mapM (broadcast_row n) m;
      if bool_decide (length rows = s) then Some rows
      else match rows with
           | [row] => Some (replicate s row)
           | _ => None
           end
  end.

Section GetData.
(** [np.loadtxt] on a path; [None] when it raises (no such file, a line
    that does not parse). *)
Variable loadtxt : string → option loaded.

Definition getData (PATH_TO_DATA : string) (anchor_id_list : list string) (n_samples : Z)
  : option (cube * Z) :=
  let n_anchors := length anchor_id_list in
  (* since we discard first sample *)
  let n_samples := (n_samples - 1)%Z in
  (* np.empty refuses a negative dimension *)
  if bool_decide (n_samples < 0)%Z then None
  else
    planes ← mapM (λ anchor_id,
                     let anchor_data :=
                       match loadtxt (PATH_TO_DATA +:+ "/" +:+ anchor_id
                                      +:+ "_ranging_data.txt") ≫= drop_first with
                       | Some a => a
                       | None => Loaded2 (replicate (Z.to_nat n_samples)
                                                    (replicate n_anchors (- 1)))
                       end in
                     broadcast_plane (Z.to_nat n_samples) n_anchors anchor_data)
                  anchor_id_list;
    Some (planes, n_samples).

End GetData.

(** ** Concrete inputs *)

Module Examples.

Definition ints (l : list (list Z)) : matrix := map (map num) l.

(** Two anchors, the first one fixed. *)
Definition two_coords : matrix := ints [[1; 2; 3]; [4; 5; 6]]%Z.
Definition two_fixed : list bool := [true; false].
(** [two_coords.T.reshape(-1, 3)] *)
Definition two_transposed : matrix := ints [[1; 4; 2]; [5; 3; 6]]%Z.
Definition two_ranges : matrix := ints [[-1; 1]; [1; -1]]%Z.

(** Three anchors, the first two fixed and 5 apart; the third one is free
    and has no valid range. *)
Definition tri_coords : matrix := ints [[0; 3; 0]; [0; 0; 4]; [9; 9; 9]]%Z.
Definition tri_fixed : list bool := [true; true; false].
Definition tri_ranges : matrix := ints [[-1; 5; -1]; [5; -1; -1]; [-1; -1; -1]]%Z.

(** Three anchors on the axes: anchors 0 and 1 are fixed, anchor 2 is
    guessed at (0, 0, 2) and measured 3 from anchor 0 and 5 from anchor 1.
    One sample per pair. *)
Definition axes_guess : matrix := ints [[0; 0; 0]; [0; 4; 0]; [0; 0; 2]]%Z.
Definition axes_fixed : list bool := [true; true; false].
Definition axes_ranges : matrix := ints [[-1; 4; 3]; [4; -1; 5]; [3; 5; -1]]%Z.
Definition axes_cube : cube := map (λ row, [row]) axes_ranges.

(** The solver as [main] builds it (percentiles 0.1 and 0.9), on the store
    that holds the initial guess at location 0. *)
Definition axes_solver : AutocalibrationSolver :=
  init axes_cube 0%nat axes_fixed default_max_iters default_convergence_thresh
       default_LSq_min_anchors (frac 1 10) (frac 9 10) false.
Definition axes_heap : heap := [axes_guess].
(** The same solver, solving from two neighbours on. *)
Definition axes_solver_2 : AutocalibrationSolver :=
  init axes_cube 0%nat axes_fixed default_max_iters default_convergence_thresh
       2 (frac 1 10) (frac 9 10) false.
(** Anchor 2 where both of its ranges are met. *)
Definition axes_refined : matrix := ints [[0; 0; 0]; [0; 4; 0]; [0; 0; 3]]%Z.

(** Two neighbours of an anchor and its ranges to them. *)
Definition pair_coords : matrix := ints [[0; 0; 0]; [0; 4; 0]]%Z.
Definition pair_ranges : vector := [num 3; num 4].

(** Two coincident anchors with a valid range of 1 between them. *)
Definition twin_coords : matrix := ints [[0; 0; 0]; [0; 0; 0]]%Z.
Definition twin_ranges : matrix := ints [[-1; 1]; [1; -1]]%Z.

(** Five samples 1..5 of every pair of two anchors; default percentiles. *)
Definition five_cube : cube :=
  let plane := ints [[1; 1]; [2; 2]; [3; 3]; [4; 4]; [5; 5]]%Z in [plane; plane].
Definition five_solver : AutocalibrationSolver :=
  init five_cube 0%nat [false; false] default_max_iters default_convergence_thresh
       default_LSq_min_anchors default_lower_percentile default_upper_percentile false.

(** An estimate and a ground truth for two anchors. *)
Definition err_est : matrix := ints [[0; 0; 0]; [3; 4; 0]]%Z.
Definition err_gt : matrix := ints [[0; 0; 0]; [0; 0; 0]]%Z.
(** A solver whose estimate is the buffer at location 0; the ground truth
    is at location 1. *)
Definition err_solver : AutocalibrationSolver :=
  init [] 0%nat [false; false] default_max_iters default_convergence_thresh
       default_LSq_min_anchors default_lower_percentile default_upper_percentile false.
Definition err_heap : heap := [err_est; err_gt].

(** Anchor 0 reports a range of 0 to itself. *)
Definition self_ranges : matrix := ints [[0; 1]; [1; 0]]%Z.
Definition self_coords : matrix := ints [[7; 7; 7]; [8; 8; 8]]%Z.

End Examples.

(** Closed decidable facts are settled by evaluation. *)
Ltac by_evaluation := apply (bool_decide_unpack _); vm_compute; exact I.

(** ** More concrete inputs *)

Module MoreExamples.
Import Examples.

(** The estimate of Stage 1 on [axes_solver_2] with the stand-in
    pseudo-inverse. *)
Definition axes_stage_one : matrix := ints [[0; 0; 0]; [0; 4; 0]; [0; 0; 0]]%Z.

(** A second store with the same initial guess and one more buffer. *)
Definition axes_heap_2 : heap := [axes_guess; axes_refined].

(** Two free anchors that never heard each other; one pass, solving from
    no neighbour on. *)
Definition lost_ranges : matrix := ints [[-1; -1]; [-1; -1]]%Z.
Definition lost_cube : cube := map (λ row, [row]) lost_ranges.
Definition lost_solver : AutocalibrationSolver :=
  init lost_cube 0%nat [false; false] 1 default_convergence_thresh
       0 (frac 1 10) (frac 9 10) false.
Definition lost_heap : heap := [ints [[0; 0; 0]; [1; 1; 1]]%Z].

(** Two anchors, two samples per pair; the samples of an anchor to itself
    are missing. *)
Definition gap_cube : cube :=
  [ints [[-1; 5]; [-1; 6]]%Z; ints [[5; -1]; [6; -1]]%Z].
Definition gap_solver : AutocalibrationSolver :=
  init gap_cube 0%nat [false; false] default_max_iters default_convergence_thresh
       default_LSq_min_anchors default_lower_percentile default_upper_percentile false.

(** The point (0, 0, 3) and its exact distances to [pair_coords]. *)
Definition exact_point : vector := [num 0; num 0; num 3].
Definition exact_ranges : vector := [num 3; num 5].

(** A data directory with the file of anchor a1 (three samples) and no
    file for anchor a2. *)
Definition disk_ids : list string := ["a1"; "a2"]%string.
Definition disk_a1 : matrix := ints [[-1; -1]; [-1; 7]; [-1; 8]]%Z.
Definition disk (path : string) : option loaded :=
  if decide (path = "data/a1_ranging_data.txt"%string) then Some (Loaded2 disk_a1)
  else None.

(** The same directory when the file of a1 holds two samples only. *)
Definition short_disk (path : string) : option loaded :=
  if decide (path = "data/a1_ranging_data.txt"%string)
  then Some (Loaded2 (ints [[-1; -1]; [-1; 7]]%Z))
  else None.

End MoreExamples.

(** * Properties *)

(** ** The multilateration subroutine *)

Lemma but_last_snoc {A} (l : list A) x : but_last (l ++ [x]) = l.
Proof.
  unfold but_last. rewrite length_app. simpl.
  replace (length l + 1 - 1)%nat with (length l) by lia.
  by rewrite take_app_length.
Qed.

Lemma vsub_scale (u v : vector) :
  vsub (map (Qcmult 2) u) (map (Qcmult 2) v) = map (Qcmult 2) (vsub u v).
Proof.
  unfold vsub. revert v. induction u as [|x u IH]; intros [|y v]; simpl; try done.
  f_equal; [ring | apply IH].
Qed.

Lemma build_A_loop_prefix (A' : matrix) (a : vector) (n : nat) :
  (n ≤ length A')%nat →
  foldl (λ (s : matrix) (i : nat),
           match last s, s !! i with
           | Some a_last, Some a_i => <[i := vsub a_last a_i]> s
           | _, _ => s
           end) (A' ++ [a]) (seq 0 n)
  = map (vsub a) (take n A') ++ drop n A' ++ [a].
Proof.
  induction n as [|n IH]; intros Hn.
  - simpl. by rewrite drop_0.
  - rewrite seq_S, foldl_app, IH by lia. simpl.
    destruct (lookup_lt_is_Some_2 A' n) as [r Hr]; [lia|].
    assert (Hlen : length (map (vsub a) (take n A')) = n)
      by (rewrite length_map, length_take; lia).
    rewrite (drop_S _ _ _ Hr), (take_S_r _ _ _ Hr), map_app. simpl.
    rewrite <- !app_assoc. simpl.
    assert (Hlast : last (map (vsub a) (take n A') ++ r :: drop (S n) A' ++ [a]) = Some a)
      by (rewrite app_comm_cons, app_assoc; apply last_snoc).
    rewrite Hlast, list_lookup_middle by done.
    rewrite insert_app_r_alt by lia.
    rewrite Hlen. by replace (n - n)%nat with 0%nat by lia.
Qed.

Lemma build_A_loop_snoc (A' : matrix) (a : vector) :
  build_A_loop (A' ++ [a]) = map (vsub a) A' ++ [a].
Proof.
  unfold build_A_loop, for_range. rewrite length_app. simpl.
  replace (length A' + 1 - 1)%nat with (length A') by lia.
  rewrite build_A_loop_prefix by lia.
  by rewrite take_ge, drop_ge by lia.
Qed.

Lemma map_seq_lookup_snoc {A B} (g : A → B) (d : A) (l : list A) (x : A) :
  map (λ i, g (default d ((l ++ [x]) !! i))) (seq 0 (length l)) = map g l.
Proof.
  apply list_eq. intros i. rewrite !list_lookup_fmap.
  destruct (decide (i < length l)%nat) as [Hi|Hi].
  - rewrite lookup_seq_lt by done. simpl.
    rewrite lookup_app_l by done.
    destruct (lookup_lt_is_Some_2 l i Hi) as [y Hy]. by rewrite Hy.
  - rewrite lookup_seq_ge by lia. by rewrite lookup_ge_None_2 by lia.
Qed.

Section C5.
Context `{L : Libs}.

Lemma coordinatesOpt_A (C : matrix) (c : vector) :
  but_last (build_A_loop (map (map (Qcmult 2)) (C ++ [c]))) = Spec.A (C ++ [c]).
Proof.
  rewrite map_app. simpl. rewrite build_A_loop_snoc, but_last_snoc.
  unfold Spec.A. rewrite length_app. simpl.
  replace (length C + 1 - 1)%nat with (length C) by lia.
  rewrite list_lookup_middle by done. simpl.
  rewrite (map_seq_lookup_snoc (λ r, map (Qcmult 2) (vsub c r)) [] C c).
  rewrite map_map. apply map_ext. intros r. apply vsub_scale.
Qed.

Lemma coordinatesOpt_b (C : matrix) (c : vector) (R : vector) (r : Qc) :
  length R = length C →
  zip_with (λ b n, b - sq r - n + vsum (map sq c)) (map sq R) (map (λ c, vsum (map sq c)) C)
  = Spec.b (C ++ [c]) (R ++ [r]).
Proof.
  intros Hlen. unfold Spec.b. rewrite length_app. simpl.
  replace (length C + 1 - 1)%nat with (length C) by lia.
  rewrite list_lookup_middle by done.
  rewrite list_lookup_middle by done. simpl.
  apply list_eq. intros i. rewrite list_lookup_fmap, lookup_zip_with, !list_lookup_fmap.
  destruct (decide (i < length C)%nat) as [Hi|Hi].
  - rewrite lookup_seq_lt by done. simpl.
    rewrite !lookup_app_l by lia.
    destruct (lookup_lt_is_Some_2 C i Hi) as [y Hy].
    destruct (lookup_lt_is_Some_2 R i) as [x Hx]; [lia|].
    by rewrite Hy, Hx.
  - rewrite lookup_seq_ge by lia. simpl.
    by rewrite (lookup_ge_None_2 R) by lia.
Qed.

Lemma Spec_A_rows (coord : matrix) :
  Forall (λ r, length r = 3%nat) coord → Forall (λ r, length r = 3%nat) (Spec.A coord).
Proof.
  intros Hrows. unfold Spec.A. apply Forall_map, Forall_forall. intros i Hi.
  apply elem_of_seq in Hi.
  destruct (lookup_lt_is_Some_2 coord (length coord - 1)) as [c Hc]; [lia|].
  destruct (lookup_lt_is_Some_2 coord i) as [r Hr]; [lia|].
  rewrite Hc, Hr. cbn. rewrite length_map. unfold vsub. rewrite length_zip_with.
  rewrite (Forall_lookup_1 _ _ _ _ Hrows Hc), (Forall_lookup_1 _ _ _ _ Hrows Hr). done.
Qed.

(** C5. For at least two neighbours with as many ranges, [coordinatesOpt]
    returns, without any check of the rank, the product of [np.linalg.pinv]
    of [A] with [b], where [A] has the [K - 1] rows
    [2 (coord[K-1] - coord[i])], of three columns when the coordinates have
    three, and [b] the [K - 1] entries
    [range[i]^2 - range[K-1]^2 - |coord[i]|^2 + |coord[K-1]|^2]. *)
Theorem coordinatesOpt_is_pinv (anchors_coords : matrix) (ranges : vector) :
  (2 ≤ length anchors_coords)%nat →
  length ranges = length anchors_coords →
  coordinatesOpt anchors_coords ranges
  = Some (dot (np_pinv (Spec.A anchors_coords)) (Spec.b anchors_coords ranges))
  ∧ length (Spec.A anchors_coords) = (length anchors_coords - 1)%nat
  ∧ length (Spec.b anchors_coords ranges) = (length anchors_coords - 1)%nat
  ∧ (Forall (λ r, length r = 3%nat) anchors_coords →
     Forall (λ r, length r = 3%nat) (Spec.A anchors_coords)).
Proof.
  intros HK Hlen.
  split; [|split_and!; [by unfold Spec.A; rewrite length_map, length_seq
                       |by unfold Spec.b; rewrite length_map, length_seq
                       |apply Spec_A_rows]].
  destruct (last anchors_coords) as [c|] eqn:Hc;
    [|apply last_None in Hc; subst; simpl in HK; lia].
  destruct (last ranges) as [r|] eqn:Hr;
    [|apply last_None in Hr; subst; simpl in Hlen; lia].
  apply last_Some in Hc as [C ->]. apply last_Some in Hr as [R ->].
  rewrite !length_app in Hlen. simpl in Hlen.
  unfold coordinatesOpt.
  rewrite coordinatesOpt_A.
  rewrite !map_app. simpl. rewrite !last_snoc. simpl. rewrite !but_last_snoc.
  rewrite coordinatesOpt_b by lia. done.
Qed.
End C5.

(** ** Reshaping and pinning *)

Lemma length_reshape n c (flat : vector) : length (reshape n c flat) = n.
Proof. revert flat. induction n; intros; simpl; [done|]. by rewrite IHn. Qed.

Lemma reshape_rows n c (flat : vector) :
  length flat = (n * c)%nat → Forall (λ r, length r = c) (reshape n c flat).
Proof.
  revert flat. induction n as [|n IH]; intros flat Hlen; simpl; [constructor|].
  constructor.
  - rewrite length_take. lia.
  - apply IH. rewrite length_drop. lia.
Qed.

Lemma concat_reshape n c (flat : vector) :
  length flat = (n * c)%nat → concat (reshape n c flat) = flat.
Proof.
  revert flat. induction n as [|n IH]; intros flat Hlen; simpl.
  - by destruct flat.
  - rewrite IH by (rewrite length_drop; lia). apply take_drop.
Qed.

Lemma reshape_concat c (m : matrix) :
  Forall (λ r, length r = c) m → reshape (length m) c (concat m) = m.
Proof.
  induction 1 as [|r m Hr _ IH]; simpl; [done|].
  rewrite take_app_length' by done. rewrite drop_app_length' by done. by rewrite IH.
Qed.

Lemma length_concat_rows c (m : matrix) :
  Forall (λ r, length r = c) m → length (concat m) = (length m * c)%nat.
Proof. induction 1 as [|r m Hr _ IH]; simpl; [done|]. rewrite length_app. lia. Qed.

Lemma T_reshape3_rows (a a' : matrix) :
  T_reshape3 a = Some a' → Forall (λ r, length r = 3%nat) a'.
Proof.
  unfold T_reshape3. case_bool_decide as Hm; [|done]. intros Heq.
  assert (a' = reshape (length (concat (transpose a)) `div` 3) 3 (concat (transpose a)))
    as -> by congruence.
  apply reshape_rows.
  pose proof (Nat.div_mod_eq (length (concat (transpose a))) 3). lia.
Qed.

Lemma length_pin mask (b a : matrix) : length (pin mask b a) = length a.
Proof. unfold pin. by rewrite length_imap. Qed.

Lemma pin_lookup mask (b a : matrix) i :
  pin mask b a !! i
  = row ← a !! i; Some (match mask !! i, b !! i with
                        | Some true, Some r => r
                        | _, _ => row
                        end).
Proof. unfold pin. rewrite list_lookup_imap. by destruct (a !! i). Qed.

Lemma pin_self mask (a : matrix) : pin mask a a = a.
Proof.
  apply list_eq. intros i. rewrite pin_lookup.
  destruct (a !! i) as [r|] eqn:Hr; simpl; [|done].
  by destruct (mask !! i) as [[]|].
Qed.

Lemma pin_idemp mask (b a : matrix) : pin mask b (pin mask b a) = pin mask b a.
Proof.
  apply list_eq. intros i. rewrite !pin_lookup.
  destruct (a !! i) as [r|] eqn:Hr; simpl; [|done].
  by destruct (mask !! i) as [[]|], (b !! i).
Qed.

Lemma pin_rows c mask (b a : matrix) :
  Forall (λ r, length r = c) b → Forall (λ r, length r = c) a →
  Forall (λ r, length r = c) (pin mask b a).
Proof.
  intros Hb Ha. apply Forall_lookup. intros i r. rewrite pin_lookup.
  destruct (a !! i) as [ra|] eqn:Hra; simpl; [|done].
  intros [= <-].
  pose proof (Forall_lookup_1 _ _ _ _ Ha Hra) as Hla.
  destruct (mask !! i) as [[]|]; try done.
  destruct (b !! i) as [rb|] eqn:Hrb; try done.
  apply (Forall_lookup_1 _ _ _ _ Hb Hrb).
Qed.

(** A fixed anchor's row after pinning is its row in [b]. *)
Lemma pin_fixed mask (b a : matrix) i :
  mask !! i = Some true → (i < length a)%nat →
  pin mask b a !! i = match b !! i with Some r => Some r | None => a !! i end.
Proof.
  intros Hm Hi. rewrite pin_lookup, Hm.
  destruct (lookup_lt_is_Some_2 a i Hi) as [r ->]. simpl. by destruct (b !! i).
Qed.

(** ** The effect of [costOpt] on the store *)

Section CostOpt.
Context `{L : Libs}.

Lemma my_opt_func_fst R n fixed (Θi : matrix) (x : vector) :
  (my_opt_func R n fixed Θi x).1 = concat (pin fixed Θi (reshape n 3 x)).
Proof. done. Qed.

Local Arguments my_opt_func : simpl never.

Lemma call_in_place_run v R n fixed (Θi : matrix) (a : loc) (h : heap) (x : matrix) :
  h !! a = Some x →
  Forall (λ r, length r = 3%nat) x → Forall (λ r, length r = 3%nat) Θi → length x = n →
  when_ v (call_in_place (my_opt_func R n fixed Θi) n a) h
  = Some ((), if v then <[a := pin fixed Θi x]> h else h).
Proof.
  intros Hx Hrx Hri Hn. destruct v; [|done].
  unfold when_, call_in_place, bind, load, store, ret. rewrite Hx. simpl.
  destruct (my_opt_func R n fixed Θi (concat x)) as [x' cost] eqn:Hf.
  rewrite Hx. simpl. do 3 f_equal.
  assert (x' = (my_opt_func R n fixed Θi (concat x)).1) as -> by (by rewrite Hf).
  subst n.
  rewrite reshape_concat by done.
  rewrite <- (length_pin fixed Θi x) at 1.
  apply reshape_concat. by apply pin_rows.
Qed.

Lemma call_in_place_self v R n fixed (a : loc) (h : heap) (x : matrix) :
  h !! a = Some x → Forall (λ r, length r = 3%nat) x → length x = n →
  when_ v (call_in_place (my_opt_func R n fixed x) n a) h = Some ((), h).
Proof.
  intros Hx Hrx Hn. rewrite (call_in_place_run _ _ _ _ _ _ _ x) by done.
  destruct v; [|done]. by rewrite pin_self, list_insert_id.
Qed.

(** The part of [costOpt] after [Theta_init] is copied, on a store whose
    last buffer is [Theta_init]. *)
Lemma costOpt_tail_run (R : matrix) (fixed : list bool) (v : bool)
    (h : heap) (ac : loc) (a' : matrix) :
  h !! ac = Some a' → Forall (λ r, length r = 3%nat) a' →
  (when_ v (call_in_place (my_opt_func R (length a') fixed a') (length a') ac);;
   do x0 <- load ac;
   let xopt := fmin (my_opt_func R (length a') fixed a') (concat x0) in
   if bool_decide (length xopt = length a' * 3)%nat then
     do Theta_opt <- alloc (reshape (length a') 3 xopt);
     when_ v (call_in_place (my_opt_func R (length a') fixed a') (length a') Theta_opt);;
     do t <- load Theta_opt;
     store Theta_opt (pin fixed a' t);;
     ret Theta_opt
   else raise)%heap h
  = res ← costOpt_result R fixed a'; Some (length h, h ++ [res]).
Proof.
  intros Hac Hrows. unfold bind at 1.
  rewrite (call_in_place_self _ _ _ _ _ _ a') by done.
  unfold bind at 1. unfold load at 1. rewrite Hac. simpl.
  unfold costOpt_result.
  case_bool_decide as Hsz; [|done]. simpl.
  unfold bind at 1. unfold alloc at 1.
  unfold bind at 1.
  set (t := reshape (length a') 3 (fmin (my_opt_func R (length a') fixed a') (concat a'))).
  assert (Ht : Forall (λ r, length r = 3%nat) t) by (by apply reshape_rows).
  assert (Hlt : length t = length a') by apply length_reshape.
  rewrite (call_in_place_run _ _ _ _ _ _ _ t);
    [|by apply list_lookup_middle|done..].
  unfold bind, load, store, ret.
  assert (Hlk : (if v then <[length h := pin fixed a' t]> (h ++ [t]) else h ++ [t]) !! length h
                = Some (if v then pin fixed a' t else t)).
  { destruct v.
    - apply list_lookup_insert_eq. rewrite length_app. simpl. lia.
    - by apply list_lookup_middle. }
  rewrite Hlk. simpl. rewrite Hlk. simpl. do 3 f_equal.
  destruct v.
  - rewrite list_insert_insert_eq, pin_idemp.
    replace (length h) with (length h + 0)%nat at 1 by lia.
    by rewrite insert_app_r.
  - replace (length h) with (length h + 0)%nat at 1 by lia.
    by rewrite insert_app_r.
Qed.

Lemma costOpt_eq (l : loc) (R : matrix) (fixed : list bool) (v : bool) (h : heap) :
  costOpt l R fixed v h
  = a ← h !! l; a' ← T_reshape3 a; res ← costOpt_result R fixed a';
    Some (if bool_decide ((length a ≤ 1)%nat ∧ a' = a)
          then (S (length h), h ++ [a'; res])
          else (length h + 2, h ++ [a'; a'; res])%nat).
Proof.
  unfold costOpt.
  unfold bind at 1. unfold T_reshape3_array, bind at 1 2, load at 1, lift at 1.
  destruct (h !! l) as [a|] eqn:Ha; simpl; [|done].
  destruct (T_reshape3 a) as [a'|] eqn:Ha'; simpl; [|done].
  pose proof (T_reshape3_rows _ _ Ha') as Hrows.
  case_bool_decide as Hview.
  - destruct Hview as [_ ->]. unfold ret at 1.
    unfold bind at 1. unfold np_copy, bind at 1, load at 1, alloc at 1.
    rewrite Ha. simpl.
    assert (Hl : (h ++ [a]) !! l = Some a)
      by (rewrite lookup_app_l; [done|by eapply lookup_lt_Some]).
    unfold bind at 1. unfold load at 1. rewrite Hl. simpl.
    unfold bind at 1. unfold load at 1. rewrite list_lookup_middle by done. simpl.
    rewrite costOpt_tail_run by done.
    destruct (costOpt_result R fixed a) as [res|]; simpl; [|done].
    rewrite length_app, <- app_assoc. simpl. do 3 f_equal. lia.
  - unfold alloc at 1.
    unfold bind at 1. unfold np_copy, bind at 1, load at 1, alloc at 1.
    rewrite list_lookup_middle by done. simpl.
    assert (Hl : ((h ++ [a']) ++ [a']) !! length h = Some a').
    { rewrite lookup_app_l by (rewrite length_app; simpl; lia).
      by apply list_lookup_middle. }
    unfold bind at 1. unfold load at 1. rewrite Hl. simpl.
    unfold bind at 1. unfold load at 1.
    rewrite (list_lookup_middle (h ++ [a']) [] a' (length (h ++ [a']))) by done. simpl.
    rewrite costOpt_tail_run by done.
    destruct (costOpt_result R fixed a') as [res|]; simpl; [|done].
    rewrite !length_app, <- !app_assoc. simpl. do 2 f_equal. lia.
Qed.
End CostOpt.


Section CostOptFacts.
Context `{L : Libs}.

(** [costOpt] leaves every buffer of the store as it was and returns a
    fresh one, which holds [costOpt_result]. *)
Lemma costOpt_frame (l : loc) (R : matrix) (fixed : list bool) (v : bool)
    (h h' : heap) (r : loc) :
  costOpt l R fixed v h = Some (r, h') →
  (∀ l0 m, h !! l0 = Some m → h' !! l0 = Some m)
  ∧ h !! r = None
  ∧ ∃ a a' res, h !! l = Some a ∧ T_reshape3 a = Some a'
                ∧ costOpt_result R fixed a' = Some res ∧ h' !! r = Some res.
Proof.
  rewrite costOpt_eq.
  destruct (h !! l) as [a|] eqn:Ha; simpl; [|done].
  destruct (T_reshape3 a) as [a'|] eqn:Ha'; simpl; [|done].
  destruct (costOpt_result R fixed a') as [res|] eqn:Hres; simpl; [|done].
  case_bool_decide; intros [= <- <-].
  - split_and!.
    + intros l0 m Hl0. by apply lookup_app_l_Some.
    + apply lookup_ge_None_2. lia.
    + exists a, a', res. split_and!; try done.
      by rewrite (lookup_app_r h) by lia; replace (S (length h) - length h)%nat with 1%nat by lia.
  - split_and!.
    + intros l0 m Hl0. by apply lookup_app_l_Some.
    + apply lookup_ge_None_2. lia.
    + exists a, a', res. split_and!; try done.
      by rewrite (lookup_app_r h) by lia; replace (length h + 2 - length h)%nat with 2%nat by lia.
Qed.

(** With an optimizer that returns a vector of the size of its start,
    [costOpt] returns. *)
Lemma costOpt_returns (l : loc) (R : matrix) (fixed : list bool) (v : bool)
    (h : heap) (a a' : matrix) :
  (∀ f x, length (fmin f x) = length x) →
  h !! l = Some a → T_reshape3 a = Some a' →
  ∃ r h', costOpt l R fixed v h = Some (r, h')
    ∧ h' !! r = Some (pin fixed a'
                        (reshape (length a') 3
                           (fmin (my_opt_func R (length a') fixed a') (concat a')))).
Proof.
  intros Hsz Ha Ha'.
  assert (costOpt_result R fixed a'
          = Some (pin fixed a' (reshape (length a') 3
                    (fmin (my_opt_func R (length a') fixed a') (concat a'))))) as Hres.
  { unfold costOpt_result. rewrite bool_decide_true; [done|].
    rewrite Hsz. apply length_concat_rows. by eapply T_reshape3_rows. }
  destruct (costOpt l R fixed v h) as [[r h']|] eqn:Hrun.
  - exists r, h'. split; [done|].
    apply costOpt_frame in Hrun as (_ & _ & a0 & a0' & res & ? & ? & ? & ?).
    congruence.
  - rewrite costOpt_eq, Ha in Hrun. simpl in Hrun. rewrite Ha' in Hrun. simpl in Hrun.
    rewrite Hres in Hrun. done.
Qed.

(** The fixed rows of the array [costOpt] returns are the rows of the
    transposed-and-regrouped input. *)
Lemma costOpt_result_fixed_row (R : matrix) (fixed : list bool) (a' res : matrix) i :
  costOpt_result R fixed a' = Some res →
  fixed !! i = Some true → (i < length a')%nat →
  res !! i = a' !! i.
Proof.
  unfold costOpt_result. case_bool_decide; [|done]. intros [= <-] Hf Hi.
  rewrite pin_fixed; [|done|by rewrite length_reshape].
  by destruct (lookup_lt_is_Some_2 a' i Hi) as [x ->].
Qed.

End CostOptFacts.

Import Examples.

Section StageTwoClaims.
Context `{L : Libs}.

Lemma stageTwo_run_frame (self : AutocalibrationSolver) (sample_idx : option nat)
    (h h' : heap) (r : loc) :
  stageTwo self sample_idx h = Some (r, h') →
  (∀ l m, h !! l = Some m → h' !! l = Some m)
  ∧ h' !! autocalibrated_coords self = h !! autocalibrated_coords self
  ∧ h !! r = None ∧ is_Some (h' !! r).
Proof.
  unfold stageTwo, bind, lift.
  destruct (stageTwo_samples self sample_idx) as [S|]; simpl; [|done].
  intros Hrun. apply costOpt_frame in Hrun as (Hfr & Hnew & a & a' & res & Ha & _ & _ & Hr).
  split_and!; [done| |done|by exists res].
  rewrite Ha. by apply Hfr.
Qed.

(** C10. A call of [stageTwo] that returns leaves every buffer that was in
    the store with the values it had -- the solver's stored estimate, which
    is the array handed to [costOpt], and the initial guess among them --
    and the array it returns is a fresh one.  [stageTwo] assigns no
    attribute of the solver. *)
Theorem stageTwo_frame (self : AutocalibrationSolver) (sample_idx : option nat)
    (h h' : heap) (r : loc) :
  stageTwo self sample_idx h = Some (r, h') →
  (∀ l m, h !! l = Some m → h' !! l = Some m)
  ∧ h' !! autocalibrated_coords self = h !! autocalibrated_coords self
  ∧ h !! r = None ∧ is_Some (h' !! r).
Proof. apply stageTwo_run_frame. Qed.

(** C1. On two anchors at (1,2,3) and (4,5,6) with the first one fixed,
    whatever the optimizer does, [costOpt] returns the fixed anchor at
    (1,4,2), and every cost evaluation sees it there: the fixed rows are
    pinned to the rows of the transposed-and-regrouped input, not to the
    input's. *)
Theorem costOpt_pins_transposed_rows :
  (∀ f x, length (fmin f x) = length x) →
  two_coords !! 0%nat = Some [num 1; num 2; num 3]
  ∧ ∃ r h' Θ,
      costOpt 0%nat two_ranges two_fixed false [two_coords] = Some (r, h')
      ∧ h' !! r = Some Θ
      ∧ Θ !! 0%nat = Some [num 1; num 4; num 2]
      ∧ ∀ x : vector,
          take 3 (my_opt_func two_ranges 2 two_fixed two_transposed x).1
          = [num 1; num 4; num 2].
Proof.
  intros Hsz. split; [done|].
  assert (T_reshape3 two_coords = Some two_transposed) as HT by by_evaluation.
  destruct (costOpt_returns 0%nat two_ranges two_fixed false [two_coords]
              two_coords two_transposed Hsz eq_refl HT) as (r & h' & Hrun & Hr).
  eexists r, h', _. split_and!; [done..| |].
  - rewrite pin_fixed; [done|done|]. rewrite length_reshape. simpl. lia.
  - intros x. rewrite my_opt_func_fst. done.
Qed.

(** C8. On three anchors of which the two fixed ones are exactly as far
    apart as their range says, the input costs 0 and, whatever the
    optimizer does, the coordinates [costOpt] returns cost 512. *)
Theorem costOpt_cost_increase :
  (∀ f x, length (fmin f x) = length x) →
  stage2_cost tri_ranges tri_coords = 0
  ∧ Spec.cost tri_ranges tri_coords = 0
  ∧ ∃ r h' Θ,
      costOpt 0%nat tri_ranges tri_fixed false [tri_coords] = Some (r, h')
      ∧ h' !! r = Some Θ
      ∧ stage2_cost tri_ranges Θ = num 512
      ∧ Spec.cost tri_ranges Θ = num 512.
Proof.
  intros Hsz.
  split; [by_evaluation|]. split; [by_evaluation|].
  assert (T_reshape3 tri_coords = Some (ints [[0; 0; 9]; [3; 0; 9]; [0; 4; 9]]%Z))
    as HT by by_evaluation.
  destruct (costOpt_returns 0%nat tri_ranges tri_fixed false [tri_coords]
              tri_coords _ Hsz eq_refl HT) as (r & h' & Hrun & Hr).
  revert Hr.
  set (xopt := fmin _ _).
  assert (length xopt = 9%nat) as Hlen by (unfold xopt; by rewrite Hsz).
  destruct xopt as [|x1 [|x2 [|x3 [|x4 [|x5 [|x6 [|x7 [|x8 [|x9 [|]]]]]]]]]]; try done.
  intros Hr.
  eexists r, h', _. split_and!; [done..| |].
  - apply Qc_is_canon. vm_compute. reflexivity.
  - apply Qc_is_canon. vm_compute. reflexivity.
Qed.

End StageTwoClaims.

(** ** The calibration run, the cost and the percentile filter *)

Section RunFacts.
Context `{L : Libs}.

(** The output of a calibration run is the estimate Stage 1 left: the array
    [stageTwo] returns is dropped. *)
Lemma calibration_run_output (solver s' : AutocalibrationSolver) (j : nat)
    (h h' : heap) (out : loc) :
  calibration_run solver j h = Some ((s', out), h') →
  ∃ h1 r h2,
    stageOne solver (Some j) h = Some (s', h1)
    ∧ stageTwo s' (Some j) h1 = Some (r, h2)
    ∧ h' !! out = h1 !! autocalibrated_coords s'
    ∧ h' !! autocalibrated_coords s' = h1 !! autocalibrated_coords s'.
Proof.
  unfold calibration_run. unfold bind at 1.
  destruct (stageOne solver (Some j) h) as [[s1 h1]|] eqn:H1; [|done].
  unfold bind at 1.
  destruct (stageTwo s1 (Some j) h1) as [[r h2]|] eqn:H2; [|done].
  destruct (stageTwo_run_frame _ _ _ _ _ H2) as (Hfr & Hac & _ & _).
  unfold np_copy, bind, load, alloc, ret.
  destruct (h2 !! autocalibrated_coords s1) as [m|] eqn:Hm; simpl; [|done].
  intros [= <- <- <-]. exists h1, r, h2. split_and!; try done.
  - rewrite list_lookup_middle by done. congruence.
  - rewrite lookup_app_l by (by eapply lookup_lt_Some). congruence.
Qed.
End RunFacts.

(** C2. Three anchors on the axes, one sample, the caller's
    configuration: Stage 2 moves the free anchor to (0, 0, 3), where both
    of its ranges are met, but after the run the solver's stored estimate
    and the run's output still hold the Stage 1 estimate (0, 0, 2). *)
Theorem calibration_run_keeps_stage_one_estimate :
  fst <$> (do s <- stageOne (L := Standin.libs) axes_solver (Some 0%nat);
           do r <- stageTwo (L := Standin.libs) s (Some 0%nat);
           load r) axes_heap
  = Some axes_refined
  ∧ fst <$> (do '(s, out) <- calibration_run (L := Standin.libs) axes_solver 0;
             load (autocalibrated_coords s)) axes_heap
    = Some axes_guess
  ∧ fst <$> (do '(s, out) <- calibration_run (L := Standin.libs) axes_solver 0;
             load out) axes_heap
    = Some axes_guess.
Proof. split_and!; by_evaluation. Qed.

(** C3. Two anchors at the same point with a valid range of 1 between
    them: [_my_opt_func] returns 0, the sum over the pairs [i ≠ j] with a
    valid range is 2. *)
Theorem cost_drops_coincident_pair :
  (my_opt_func twin_ranges 2 [false; false] twin_coords (concat twin_coords)).2 = 0
  ∧ Spec.cost twin_ranges twin_coords = 2.
Proof. split; by_evaluation. Qed.

(** C6. Five samples 1, 2, 3, 4, 5 of a pair under the default
    configuration: the 25th and 75th percentiles are 2 and 4 and the second
    sample, 2, lies between them, but [stageTwo] passes 0.25 and 0.75 to
    [np.percentile], whose bounds are then 1.01 and 1.03, and replaces the
    sample by -1. *)
Theorem default_percentiles_reject_inlier :
  let samples := [num 1; num 2; num 3; num 4; num 5] in
  column (default [] (five_cube !! 0%nat)) 1 = Some samples
  ∧ lower_percentile five_solver = frac 1 4
  ∧ upper_percentile five_solver = frac 3 4
  ∧ Standin.percentile_linear samples (num 25) = num 2
  ∧ Standin.percentile_linear samples (num 75) = num 4
  ∧ Standin.percentile_linear samples (lower_percentile five_solver) = frac 101 100
  ∧ Standin.percentile_linear samples (upper_percentile five_solver) = frac 103 100
  ∧ stageTwo_samples (L := Standin.libs) five_solver (Some 1%nat)
    = Some (ints [[-1; -1]; [-1; -1]]%Z).
Proof. split_and!; by_evaluation. Qed.

(** ** The percentile filter *)

Lemma mapM_lookup {A B} (f : A → option B) (l : list A) (ys : list B) (i : nat) (x : A) :
  mapM f l = Some ys → l !! i = Some x → ∃ y, ys !! i = Some y ∧ f x = Some y.
Proof.
  intros HM Hx. apply mapM_Some_1 in HM.
  destruct (Forall2_lookup_l _ _ _ _ _ HM Hx) as (y & ? & ?). by exists y.
Qed.

Section Filter.
Context `{L : Libs}.

(** In single-sample filtered mode an entry keeps the raw sample when it
    lies between [np.percentile] of the pair's samples at
    [self.lower_percentile] and at [self.upper_percentile], and is -1
    otherwise. *)
Lemma filtered_sample_entry (self : AutocalibrationSolver) (j i k : nat)
    (out plane : matrix) (row col : vector) (v : Qc) :
  stageTwo_samples self (Some j) = Some out →
  samples_ijk self !! i = Some plane → plane !! j = Some row → row !! k = Some v →
  column plane k = Some col →
  lookup2 out i k
  = Some (if bool_decide (np_percentile col (lower_percentile self) ≤ v
                          ∧ v ≤ np_percentile col (upper_percentile self))
          then v else - 1).
Proof.
  intros Hout Hplane Hrow Hv Hcol.
  cbn [stageTwo_samples] in Hout. unfold filtered_sample in Hout.
  destruct (sample_slice (samples_ijk self) j) as [S|] eqn:HS; [|done].
  destruct (percentile_axis1 (samples_ijk self) (lower_percentile self)) as [lo|] eqn:Hlo;
    [|done].
  destruct (percentile_axis1 (samples_ijk self) (upper_percentile self)) as [up|] eqn:Hup;
    [|done].
  cbn [mbind option_bind] in Hout. injection Hout as <-.
  destruct (mapM_lookup _ _ _ _ _ HS Hplane) as (row' & HSi & Hrow').
  assert (row' = row) as -> by congruence.
  assert (k < length (default [] (head plane)))%nat as Hk.
  { destruct plane as [|r0 plane]; [done|]. cbn.
    unfold column in Hcol. cbn in Hcol.
    destruct (r0 !! k) eqn:Hr0; [|done]. by eapply lookup_lt_Some. }
  assert (∀ q bs, percentile_axis1 (samples_ijk self) q = Some bs →
                  lookup2 bs i k = Some (np_percentile col q)) as Hbound.
  { intros q bs Hbs. destruct (mapM_lookup _ _ _ _ _ Hbs Hplane) as (brow & Hbi & Hbrow).
    destruct (mapM_lookup _ _ _ k k Hbrow) as (b & Hbk & Hb).
    { by apply lookup_seq_lt. }
    rewrite Hcol in Hb. cbn in Hb. injection Hb as <-.
    unfold lookup2. rewrite Hbi. done. }
  pose proof (Hbound _ _ Hlo) as Hlok. pose proof (Hbound _ _ Hup) as Hupk.
  unfold lookup2 in Hlok, Hupk |- *.
  destruct (lo !! i) as [lrow|] eqn:Hloi; [|done].
  destruct (up !! i) as [urow|] eqn:Hupi; [|done].
  cbn [mbind option_bind] in Hlok, Hupk.
  unfold assign_where.
  rewrite !lookup_zip_with, list_lookup_fmap, HSi, Hloi, Hupi.
  cbn [mbind option_bind fmap option_fmap option_map].
  rewrite !lookup_zip_with, list_lookup_fmap, Hv, Hlok, Hupk.
  cbn [mbind option_bind fmap option_fmap option_map].
  f_equal.
  destruct (bool_decide_reflect (v ≤ np_percentile col (upper_percentile self))) as [Hu|Hu];
    destruct (bool_decide_reflect (np_percentile col (lower_percentile self) ≤ v)) as [Hl|Hl];
    cbn; [by rewrite bool_decide_true|by rewrite bool_decide_false by (by intros [??])..].
Qed.

(** The percentages [__init__] passes on by default are a quarter and
    three quarters of one percent. *)
Lemma default_percentiles :
  default_lower_percentile = frac 1 4 ∧ default_upper_percentile = frac 3 4
  ∧ default_lower_percentile ≠ num 25 ∧ default_upper_percentile ≠ num 75.
Proof. split_and!; by_evaluation. Qed.

End Filter.

(** ** [estimationError] *)

Lemma vsub_self_sq (t : vector) : vsum (map sq (vsub t t)) = 0.
Proof.
  unfold vsub. induction t as [|x t IH]; simpl; [done|].
  rewrite IH. unfold sq. ring.
Qed.

Section ErrorFacts.
Context `{L : Libs}.

(** With an axis, [estimationError] returns the signed differences on that
    axis, one per anchor, and leaves the store as it is. *)
Lemma estimationError_axis (self : AutocalibrationSolver) (gt : loc) (ax : Z)
    (h : heap) (est g : matrix) :
  h !! autocalibrated_coords self = Some est → h !! gt = Some g →
  Forall (λ r, length r = 3%nat) est → Forall (λ r, length r = 3%nat) g →
  (0 ≤ ax < 3)%Z →
  estimationError self gt (Some ax) h
  = Some (Arr1 (zip_with (λ e t, default 0 (e !! Z.to_nat ax) - default 0 (t !! Z.to_nat ax))
                         est g), h).
Proof.
  intros Hest Hg Hre Hrg Hax.
  unfold estimationError, bind, load, lift, ret. rewrite Hest. simpl. rewrite Hg. simpl.
  set (col := zip_with _ est g).
  assert (mapM (λ row : list Qc, k ← py_index (length row) ax; row !! k) (msub est g)
          = Some col) as ->; [|done].
  apply mapM_Some. unfold col, msub. clear Hest Hg col.
  revert g Hrg. induction Hre as [|e est He _ IH]; intros [|t g] Hrg; simpl; try constructor.
  - apply Forall_cons in Hrg as [Ht Hrg].
    assert (length (vsub e t) = 3%nat) as Hl by (unfold vsub; rewrite length_zip_with; lia).
    rewrite Hl. unfold py_index. rewrite bool_decide_true by done. simpl.
    unfold vsub. rewrite lookup_zip_with.
    destruct (lookup_lt_is_Some_2 e (Z.to_nat ax)) as [x ->]; [lia|].
    destruct (lookup_lt_is_Some_2 t (Z.to_nat ax)) as [y ->]; [lia|]. done.
  - apply Forall_cons in Hrg as [_ Hrg]. by apply IH.
Qed.

(** Without an axis, [estimationError] returns a two-dimensional array with
    one row per anchor of the estimate and one column per anchor of the
    ground truth. *)
Lemma estimationError_no_axis (self : AutocalibrationSolver) (gt : loc)
    (h : heap) (est g : matrix) :
  h !! autocalibrated_coords self = Some est → h !! gt = Some g →
  ∃ m, estimationError self gt None h = Some (Arr2 m, h)
       ∧ length m = length est ∧ Forall (λ row, length row = length g) m.
Proof.
  intros Hest Hg. eexists. unfold estimationError, bind, load, lift, ret.
  rewrite Hest. simpl. rewrite Hg. simpl. split_and!; [done|by rewrite length_map|].
  apply Forall_map, Forall_forall. intros e _. by rewrite length_map.
Qed.

(** C9. An estimate of two anchors, the second one 5 away from its ground
    truth: without an axis [estimationError] returns the 2 x 2 array of the
    distances between every estimated and every true anchor, not the
    2-vector of the anchors' own errors. *)
Theorem estimationError_no_axis_is_square :
  estimationError err_solver 1%nat None err_heap
  = Some (Arr2 [[np_sqrt 0; np_sqrt 0]; [np_sqrt (num 25); np_sqrt (num 25)]], err_heap).
Proof.
  unfold estimationError, bind, load, lift, ret. simpl.
  do 3 f_equal.
  repeat (f_equal; try (apply Qc_is_canon; reflexivity)).
Qed.

End ErrorFacts.

(** ** [stageOne] against the iteration of the specification *)

Section StageOne.
Context `{L : Libs}.

(** The loop over [k], started with some neighbours already gathered: it
    reads the store only, and appends the neighbours of the specification
    as long as no entry [(i, i)] on its way is a valid range. *)
Lemma gather_loop_run (l : loc) (S m : matrix) (i : nat) (h : heap) (ks : list nat)
    (cs : matrix) (rs : vector) :
  h !! l = Some m →
  (∀ d, i ∈ ks → lookup2 S i i = Some d → d < 0) →
  for_each ks
    (λ k '(_anchors_coords, _ranges),
       do r <- lift (lookup2 S i k);
       if bool_decide (r < 0) then ret (_anchors_coords, _ranges)
       else do c <- load_row l k;
            ret (_anchors_coords ++ [c], _ranges ++ [r]))
    (cs, rs) h
  = nbs ← mapM (Spec.neighbour S m i) ks;
    Some ((cs ++ (omap id nbs).*1, rs ++ (omap id nbs).*2), h).
Proof.
  intros Hm. revert cs rs. induction ks as [|k ks IH]; intros cs rs Hdiag.
  - simpl. rewrite !app_nil_r. reflexivity.
  - change (mapM (Spec.neighbour S m i) (k :: ks))
      with (y ← Spec.neighbour S m i k; ys ← mapM (Spec.neighbour S m i) ks; Some (y :: ys)).
    cbn [for_each]. unfold bind at 1. unfold bind at 1. unfold lift at 1.
    destruct (lookup2 S i k) as [r|] eqn:Hr; last first.
    { assert (Spec.neighbour S m i k = None) as ->
        by (unfold Spec.neighbour; by rewrite Hr).
      done. }
    assert (Spec.neighbour S m i k
            = if bool_decide (k ≠ i ∧ 0 ≤ r)
              then c ← m !! k; Some (Some (c, r)) else Some None) as ->
      by (unfold Spec.neighbour; by rewrite Hr).
    cbn [mbind option_bind].
    case_bool_decide as Hneg.
    + rewrite bool_decide_false; last first.
      { intros [_ Hr0]. by apply Qcle_not_lt in Hr0. }
      unfold ret at 1. rewrite IH by (intros; eapply Hdiag; [by right|done]).
      by destruct (mapM (Spec.neighbour S m i) ks).
    + rewrite bool_decide_true; last first.
      { split; [|by apply Qcnot_lt_le].
        intros ->. apply Hneg. eapply Hdiag; [by left|done]. }
      unfold load_row, load. unfold bind at 1. unfold bind at 1.
      rewrite Hm. cbn [mbind option_bind]. unfold lift at 1.
      destruct (m !! k) as [c|]; [|done].
      cbn [mbind option_bind]. unfold ret at 1.
      rewrite IH by (intros; eapply Hdiag; [by right|done]).
      destruct (mapM (Spec.neighbour S m i) ks) as [nbs|]; [|done].
      cbn. by rewrite <- !app_assoc.
Qed.

Lemma gather_run (l : loc) (S m : matrix) (n i : nat) (h : heap) :
  h !! l = Some m →
  (∀ d, lookup2 S i i = Some d → d < 0) →
  gather l S n i h
  = nbs ← Spec.neighbours S m n i; Some ((nbs.*1, nbs.*2), h).
Proof.
  intros Hm Hdiag. unfold gather, Spec.neighbours.
  rewrite (gather_loop_run l S m i h) by auto.
  by destruct (mapM (Spec.neighbour S m i) (seq 0 n)).
Qed.

(** The body of the loop over [i] is step b of the specification for
    anchor [i], written back into the coordinate buffer. *)
Lemma update_anchor_run (self : AutocalibrationSolver) (S m : matrix) (i : nat) (h : heap) :
  h !! autocalibrated_coords self = Some m →
  (∀ d, lookup2 S i i = Some d → d < 0) →
  update_anchor self S (length S) i () h
  = m' ← Spec.update coordinatesOpt S (fixed_anchors self) (LSq_min_anchors self) m i;
    Some ((), <[autocalibrated_coords self := m']> h).
Proof.
  intros Hm Hdiag. unfold update_anchor, Spec.update.
  unfold bind at 1. unfold lift at 1.
  destruct (fixed_anchors self !! i) as [[]|]; cbn [mbind option_bind]; [|  |done].
  { unfold ret. by rewrite list_insert_id. }
  unfold bind at 1. rewrite (gather_run _ _ m) by done.
  destruct (Spec.neighbours S m (length S) i) as [nbs|]; cbn [mbind option_bind]; [|done].
  rewrite length_fmap.
  case_bool_decide; [|cbn; unfold ret; by rewrite list_insert_id].
  unfold bind at 1. unfold lift at 1.
  destruct (coordinatesOpt (nbs.*1) (nbs.*2)) as [x|]; cbn [mbind option_bind]; [|done].
  unfold store_row, bind, load, lift, store. rewrite Hm. cbn [mbind option_bind].
  destruct (set_row m i x) as [m'|]; cbn [mbind option_bind]; [|done].
  by rewrite Hm.
Qed.

(** One pass over the anchors. *)
Lemma update_all_run (self : AutocalibrationSolver) (S : matrix) (ks : list nat)
    (m : matrix) (h : heap) :
  h !! autocalibrated_coords self = Some m →
  (∀ i d, i ∈ ks → lookup2 S i i = Some d → d < 0) →
  for_each ks (update_anchor self S (length S)) () h
  = m' ← Spec.update_all coordinatesOpt S (fixed_anchors self) (LSq_min_anchors self) ks m;
    Some ((), <[autocalibrated_coords self := m']> h).
Proof.
  revert m h. induction ks as [|k ks IH]; intros m h Hm Hdiag.
  - cbn. unfold ret. by rewrite list_insert_id.
  - cbn [for_each Spec.update_all]. unfold bind at 1.
    rewrite (update_anchor_run _ _ m);
      [|done|by intros d Hd; eapply (Hdiag k); [left|]].
    destruct (Spec.update coordinatesOpt S (fixed_anchors self) (LSq_min_anchors self) m k)
      as [m1|]; cbn [mbind option_bind]; [|done].
    rewrite (IH m1); last first.
    { intros. eapply Hdiag; [by right|done]. }
    { apply list_lookup_insert_eq. by eapply lookup_lt_Some. }
    destruct (Spec.update_all _ _ _ _ ks m1) as [m2|]; cbn [mbind option_bind]; [|done].
    by rewrite list_insert_insert_eq.
Qed.

(** The iteration with its early exit.  Each pass leaves behind its copy of
    the previous estimate; nothing else in the store changes. *)
Lemma stageOne_loop_run (self : AutocalibrationSolver) (S : matrix) (t : nat)
    (m : matrix) (h : heap) :
  (∀ x, 0 ≤ np_sqrt x) →
  h !! autocalibrated_coords self = Some m →
  (∀ i d, (i < length S)%nat → lookup2 S i i = Some d → d < 0) →
  match stageOne_loop t self S (length S) h with
  | Some (_, h') =>
      ∃ m' tl,
        Spec.iterate coordinatesOpt S (fixed_anchors self) (convergence_thresh self)
                     (LSq_min_anchors self) t m = Some m'
        ∧ h' = <[autocalibrated_coords self := m']> h ++ tl
  | None =>
      Spec.iterate coordinatesOpt S (fixed_anchors self) (convergence_thresh self)
                   (LSq_min_anchors self) t m = None
  end.
Proof.
  intros Hsqrt. revert m h. induction t as [|t IH]; intros m h Hm Hdiag.
  - cbn. exists m, []. by rewrite list_insert_id, app_nil_r.
  - cbn [stageOne_loop Spec.iterate].
    pose proof (lookup_lt_Some _ _ _ Hm) as Hl.
    unfold bind at 1. unfold np_copy, bind at 1, load at 1, alloc at 1.
    rewrite Hm. cbn [mbind option_bind].
    unfold bind at 1.
    rewrite (update_all_run _ _ _ m); first last.
    { intros i d Hi. apply Hdiag. apply elem_of_seq in Hi. lia. }
    { by rewrite lookup_app_l. }
    destruct (Spec.update_all coordinatesOpt S (fixed_anchors self)
                (LSq_min_anchors self) (seq 0 (length S)) m) as [m1|];
      cbn [mbind option_bind]; [|done].
    set (h1 := <[autocalibrated_coords self := m1]> (h ++ [m])).
    assert (h1 !! autocalibrated_coords self = Some m1) as Hm1.
    { apply list_lookup_insert_eq. rewrite length_app. lia. }
    assert (h1 !! length h = Some m) as Hold.
    { unfold h1. rewrite list_lookup_insert_ne by lia. by apply list_lookup_middle. }
    assert (h1 = <[autocalibrated_coords self := m1]> h ++ [m]) as Hh1.
    { unfold h1. by rewrite insert_app_l. }
    unfold bind at 1. unfold load at 1. rewrite Hm1. cbn [mbind option_bind].
    unfold bind at 1. unfold load at 1. rewrite Hold. cbn [mbind option_bind].
    rewrite Qcabs.Qcabs_pos by apply Hsqrt.
    change (np_linalg_norm (msub m1 m)) with (Spec.change m1 m).
    case_bool_decide.
    + exists m1, [m]. done.
    + specialize (IH m1 h1 Hm1 Hdiag).
      destruct (stageOne_loop t self S (length S) h1) as [[[] h']|]; [|done].
      destruct IH as (m' & tl & Hit & ->).
      exists m', ([m] ++ tl). split; [done|].
      rewrite Hh1. rewrite insert_app_l by (rewrite length_insert; lia).
      by rewrite list_insert_insert_eq, <- app_assoc.
Qed.


Lemma stageOne_samples_length (self : AutocalibrationSolver) (idx : option nat) (S : matrix) :
  stageOne_samples self idx = Some S → length S = length (samples_ijk self).
Proof.
  destruct idx as [j|]; simpl; intros HS;
    apply mapM_Some_1, Forall2_length in HS.
  - done.
  - by rewrite length_seq in HS.
Qed.

Lemma stageOne_run (self : AutocalibrationSolver) (sample_idx : option nat)
    (h : heap) (guess rangeMatrix : matrix) :
  (∀ x, 0 ≤ np_sqrt x) →
  h !! initial_guess self = Some guess →
  stageOne_samples self sample_idx = Some rangeMatrix →
  (∀ i, (i < length rangeMatrix)%nat → lookup2 rangeMatrix i i = Some (- 1)) →
  match stageOne self sample_idx h with
  | Some (s', h') =>
      ∃ m' tl,
        Spec.refine coordinatesOpt rangeMatrix guess (fixed_anchors self)
          (max_iters self) (convergence_thresh self) (LSq_min_anchors self) = Some m'
        ∧ s' = set_autocalibrated_coords self (length h)
        ∧ h' = <[length h := m']> (h ++ [guess]) ++ tl
  | None =>
      Spec.refine coordinatesOpt rangeMatrix guess (fixed_anchors self)
        (max_iters self) (convergence_thresh self) (LSq_min_anchors self) = None
  end.
Proof.
  intros Hsqrt Hg HS Hdiag.
  assert (∀ i d, (i < length rangeMatrix)%nat →
                 lookup2 rangeMatrix i i = Some d → d < 0) as Hneg.
  { intros i d Hi Hd. rewrite (Hdiag i Hi) in Hd. by injection Hd as <-. }
  pose proof (stageOne_samples_length _ _ _ HS) as Hlen.
  unfold stageOne, Spec.refine.
  set (self' := set_autocalibrated_coords self (length h)).
  pose proof (stageOne_loop_run self' rangeMatrix (max_iters self) guess (h ++ [guess])
                Hsqrt (list_lookup_middle h [] guess (length h) eq_refl) Hneg) as Hloop.
  unfold bind at 1. unfold np_copy, bind at 1, load at 1, alloc at 1.
  rewrite Hg. cbn [mbind option_bind].
  unfold bind at 1. unfold lift at 1.
  change (stageOne_samples (set_autocalibrated_coords self (length h)) sample_idx)
    with (stageOne_samples self sample_idx).
  rewrite HS. cbn [mbind option_bind].
  fold self'. rewrite <- Hlen.
  change (max_iters self') with (max_iters self).
  unfold bind at 1.
  destruct (stageOne_loop (max_iters self) self' rangeMatrix (length rangeMatrix)
              (h ++ [guess])) as [[[] h1]|].
  - destruct Hloop as (m' & tl & Hit & ->). unfold ret.
    exists m', tl. split; [exact Hit|done].
  - exact Hloop.
Qed.

(** C4. When every diagonal entry of the range matrix is the sentinel -1,
    the estimate [stageOne] stores is the one the iteration of the
    specification computes from the initial guess with [coordinatesOpt] as
    the multilateration subroutine; it is stored in a fresh buffer, and the
    buffers of the store, the initial guess among them, keep their values. *)
Theorem stageOne_refines_spec (self : AutocalibrationSolver) (sample_idx : option nat)
    (h : heap) (guess rangeMatrix : matrix) :
  (∀ x, 0 ≤ np_sqrt x) →
  h !! initial_guess self = Some guess →
  stageOne_samples self sample_idx = Some rangeMatrix →
  (∀ i, (i < length rangeMatrix)%nat → lookup2 rangeMatrix i i = Some (- 1)) →
  fst <$> (do s <- stageOne self sample_idx; load (autocalibrated_coords s)) h
  = Spec.refine coordinatesOpt rangeMatrix guess (fixed_anchors self)
                (max_iters self) (convergence_thresh self) (LSq_min_anchors self)
  ∧ ∀ s' h', stageOne self sample_idx h = Some (s', h') →
      autocalibrated_coords s' = length h
      ∧ ∀ l m, h !! l = Some m → h' !! l = Some m.
Proof.
  intros Hsqrt Hg HS Hdiag.
  pose proof (stageOne_run self sample_idx h guess rangeMatrix Hsqrt Hg HS Hdiag) as Hrun.
  unfold bind, load.
  destruct (stageOne self sample_idx h) as [[s1 h1]|].
  - destruct Hrun as (m' & tl & -> & -> & ->). split.
    + cbn.
      rewrite lookup_app_l by (rewrite length_insert, length_app; simpl; lia).
      rewrite list_lookup_insert_eq by (rewrite length_app; simpl; lia). done.
    + intros s' h' [= <- <-]. split; [done|].
      intros l m Hl. pose proof (lookup_lt_Some _ _ _ Hl).
      rewrite lookup_app_l by (rewrite length_insert, length_app; simpl; lia).
      rewrite list_lookup_insert_ne by lia.
      by apply lookup_app_l_Some.
  - rewrite Hrun. split; [done|]. intros s' h' [=].
Qed.

End StageOne.

(** ** Fixed anchors in Stage 1 *)

Section FixedAnchors.
Context `{L : Libs}.

(** Gathering neighbours reads the store only. *)
Lemma gather_heap (l : loc) (S : matrix) (n i : nat) (h h' : heap) r :
  gather l S n i h = Some (r, h') → h' = h.
Proof.
  unfold gather. generalize (@nil (list Qc), @nil Qc). generalize (seq 0 n).
  intros ks. revert h. induction ks as [|k ks IH]; intros h [cs rs].
  - by intros [= _ <-].
  - cbn [for_each]. unfold bind at 1. unfold bind at 1. unfold lift at 1.
    destruct (lookup2 S i k) as [x|]; cbn [mbind option_bind]; [|done].
    case_bool_decide.
    + unfold ret at 1. apply IH.
    + unfold load_row, load. unfold bind at 1. unfold bind at 1.
      destruct (h !! l) as [m|]; cbn [mbind option_bind]; [|done].
      unfold lift at 1. destruct (m !! k); cbn [mbind option_bind]; [|done].
      unfold ret at 1. apply IH.
Qed.

Lemma set_row_other (m m' : matrix) (i j : nat) (x : vector) :
  set_row m i x = Some m' → length m' = length m ∧ (j ≠ i → m' !! j = m !! j).
Proof.
  unfold set_row. destruct (m !! i); cbn; [|done].
  case_bool_decide; [|done]. intros [= <-]. split.
  - by rewrite length_insert.
  - intros. by rewrite list_lookup_insert_ne.
Qed.

(** The body of the loop over [i] writes the coordinate buffer only, and
    no row of a fixed anchor. *)
Lemma update_anchor_fixed (self : AutocalibrationSolver) (S : matrix) (n i : nat)
    (h h' : heap) (m : matrix) :
  h !! autocalibrated_coords self = Some m →
  update_anchor self S n i () h = Some ((), h') →
  ∃ m', h' = <[autocalibrated_coords self := m']> h
        ∧ length m' = length m
        ∧ ∀ j, fixed_anchors self !! j = Some true → m' !! j = m !! j.
Proof.
  intros Hm. unfold update_anchor. unfold bind at 1. unfold lift at 1.
  destruct (fixed_anchors self !! i) as [[]|] eqn:Hfi; cbn [mbind option_bind]; [| |done].
  { intros [= <-]. exists m. by rewrite list_insert_id. }
  unfold bind at 1.
  destruct (gather _ S n i h) as [[[cs rs] h1]|] eqn:Hg; [|done].
  apply gather_heap in Hg as ->.
  case_bool_decide; last first.
  { intros [= <-]. exists m. by rewrite list_insert_id. }
  unfold bind at 1. unfold lift at 1.
  destruct (coordinatesOpt cs rs) as [x|]; cbn [mbind option_bind]; [|done].
  unfold store_row, bind, load, lift, store. rewrite Hm. cbn [mbind option_bind].
  destruct (set_row m i x) as [m'|] eqn:Hset; cbn [mbind option_bind]; [|done].
  rewrite Hm. cbn. intros [= <-]. exists m'. split; [done|].
  split; [by eapply set_row_other|].
  intros j Hj. eapply set_row_other; [done|]. intros ->. congruence.
Qed.

Lemma update_all_fixed (self : AutocalibrationSolver) (S : matrix) (n : nat)
    (ks : list nat) (h h' : heap) (m : matrix) :
  h !! autocalibrated_coords self = Some m →
  for_each ks (update_anchor self S n) () h = Some ((), h') →
  ∃ m', h' = <[autocalibrated_coords self := m']> h
        ∧ length m' = length m
        ∧ ∀ j, fixed_anchors self !! j = Some true → m' !! j = m !! j.
Proof.
  revert h m. induction ks as [|k ks IH]; intros h m Hm.
  - intros [= <-]. exists m. by rewrite list_insert_id.
  - cbn [for_each]. unfold bind at 1.
    destruct (update_anchor self S n k () h) as [[[] h1]|] eqn:Hk; [|done].
    destruct (update_anchor_fixed _ _ _ _ _ _ _ Hm Hk) as (m1 & -> & Hl1 & Hf1).
    intros Hrest.
    destruct (IH _ m1 (list_lookup_insert_eq _ _ _ (lookup_lt_Some _ _ _ Hm)) Hrest)
      as (m2 & -> & Hl2 & Hf2).
    exists m2. rewrite list_insert_insert_eq. split; [done|]. split; [congruence|].
    intros j Hj. rewrite Hf2, Hf1; done.
Qed.

Lemma stageOne_loop_fixed (self : AutocalibrationSolver) (S : matrix) (n t : nat)
    (h h' : heap) (m : matrix) :
  h !! autocalibrated_coords self = Some m →
  stageOne_loop t self S n h = Some ((), h') →
  ∃ m' tl, h' = <[autocalibrated_coords self := m']> h ++ tl
           ∧ length m' = length m
           ∧ ∀ j, fixed_anchors self !! j = Some true → m' !! j = m !! j.
Proof.
  revert h m. induction t as [|t IH]; intros h m Hm.
  - intros [= <-]. exists m, []. by rewrite list_insert_id, app_nil_r.
  - cbn [stageOne_loop].
    pose proof (lookup_lt_Some _ _ _ Hm) as Hl.
    unfold bind at 1. unfold np_copy, bind at 1, load at 1, alloc at 1.
    rewrite Hm. cbn [mbind option_bind].
    unfold bind at 1.
    destruct (for_each (seq 0 n) (update_anchor self S n) () (h ++ [m]))
      as [[[] h1]|] eqn:Hpass; [|done].
    destruct (update_all_fixed _ _ _ _ _ _ m (lookup_app_l_Some _ _ _ _ Hm) Hpass)
      as (m1 & -> & Hl1 & Hf1).
    set (h1 := <[autocalibrated_coords self := m1]> (h ++ [m])).
    assert (h1 !! autocalibrated_coords self = Some m1) as Hm1.
    { apply list_lookup_insert_eq. rewrite length_app. lia. }
    assert (h1 !! length h = Some m) as Hold.
    { unfold h1. rewrite list_lookup_insert_ne by lia. by apply list_lookup_middle. }
    assert (h1 = <[autocalibrated_coords self := m1]> h ++ [m]) as Hh1.
    { unfold h1. by rewrite insert_app_l. }
    unfold bind at 1. unfold load at 1. rewrite Hm1. cbn [mbind option_bind].
    unfold bind at 1. unfold load at 1. rewrite Hold. cbn [mbind option_bind].
    case_bool_decide.
    + intros [= <-]. by exists m1, [m].
    + intros Hrest. destruct (IH _ _ Hm1 Hrest) as (m2 & tl & -> & Hl2 & Hf2).
      exists m2, ([m] ++ tl). split.
      * rewrite Hh1. rewrite insert_app_l by (rewrite length_insert; lia).
        by rewrite list_insert_insert_eq, <- app_assoc.
      * split; [congruence|]. intros j Hj. rewrite Hf2, Hf1; done.
Qed.

(** After Stage 1 the row of every fixed anchor is its row in the initial
    guess, for every input. *)
Lemma stageOne_keeps_fixed (self s' : AutocalibrationSolver) (sample_idx : option nat)
    (h h' : heap) (guess : matrix) :
  h !! initial_guess self = Some guess →
  stageOne self sample_idx h = Some (s', h') →
  ∃ est, h' !! autocalibrated_coords s' = Some est
         ∧ length est = length guess
         ∧ ∀ j, fixed_anchors self !! j = Some true → est !! j = guess !! j.
Proof.
  intros Hg. unfold stageOne.
  unfold bind at 1. unfold np_copy, bind at 1, load at 1, alloc at 1.
  rewrite Hg. cbn [mbind option_bind].
  unfold bind at 1. unfold lift at 1.
  destruct (stageOne_samples _ sample_idx) as [S|]; cbn [mbind option_bind]; [|done].
  unfold bind at 1.
  set (self' := set_autocalibrated_coords self (length h)).
  destruct (stageOne_loop _ self' S _ (h ++ [guess])) as [[[] h1]|] eqn:Hloop; [|done].
  intros [= <- <-].
  destruct (stageOne_loop_fixed self' _ _ _ _ _ guess
              (list_lookup_middle h [] guess (length h) eq_refl) Hloop)
    as (est & tl & -> & Hlen & Hfix).
  exists est. split; [|done].
  rewrite lookup_app_l by (rewrite length_insert, length_app; simpl; lia).
  apply list_lookup_insert_eq. rewrite length_app. simpl. lia.
Qed.

End FixedAnchors.

(** ** Self entries *)

(** Every diagonal entry of the masked cost array is 0. *)
Lemma cost_matrix_diagonal (R Θ : matrix) (i : nat) (c : Qc) :
  lookup2 (cost_matrix R Θ) i i = Some c → c = 0.
Proof.
  unfold lookup2, cost_matrix.
  rewrite !lookup_zip_with, list_lookup_fmap.
  destruct (R !! i) as [Ri|]; [|done].
  destruct (Θ !! i) as [ti|] eqn:Hti; [|done].
  cbn [mbind option_bind fmap option_fmap option_map].
  rewrite !lookup_zip_with, list_lookup_fmap.
  destruct (Ri !! i) as [r|]; [|done].
  rewrite Hti. cbn [mbind option_bind fmap option_fmap option_map].
  rewrite vsub_self_sq. intros [= <-].
  by repeat case_bool_decide.
Qed.

Section SelfEntries.
Context `{L : Libs}.

(** C7 (as amended). In Stage 1 the neighbours gathered for anchor [i] are
    the anchors [k ≠ i] with a valid range whenever the entry [(i, i)] is
    negative, as the sentinel is; in Stage 2 the cost, which is the sum of
    the entries of the masked cost array, has a 0 at every entry [(j, j)],
    whatever the range matrix holds there. *)
Theorem self_entry_excluded (l : loc) (S m : matrix) (n i : nat) (h : heap)
    (R : matrix) (fixed : list bool) (Θi : matrix) (x : vector) :
  h !! l = Some m →
  (∀ d, lookup2 S i i = Some d → d < 0) →
  gather l S n i h = (nbs ← Spec.neighbours S m n i; Some ((nbs.*1, nbs.*2), h))
  ∧ (my_opt_func R n fixed Θi x).2
    = vsum (map vsum (cost_matrix R (pin fixed Θi (reshape n 3 x))))
  ∧ ∀ j c, lookup2 (cost_matrix R (pin fixed Θi (reshape n 3 x))) j j = Some c → c = 0.
Proof.
  intros Hm Hdiag. split; [by apply gather_run|]. split; [done|].
  intros j c. apply cost_matrix_diagonal.
Qed.

End SelfEntries.

(** C7, as stated, fails: anchor 0 stores a range of 0 to itself and
    [stageOne] gathers its own coordinate (7, 7, 7) with that range among
    its neighbours; the anchors [k ≠ 0] with a valid range are anchor 1
    alone. *)
Lemma gather_takes_self_entry :
  fst <$> gather 0%nat self_ranges 2 0 [self_coords]
  = Some (ints [[7; 7; 7]; [8; 8; 8]]%Z, [num 0; num 1])
  ∧ Spec.neighbours self_ranges self_coords 2 0 = Some [([num 8; num 8; num 8], num 1)]
  ∧ fst <$> gather 0%nat self_ranges 2 0 [self_coords]
    ≠ (λ nbs, (nbs.*1, nbs.*2)) <$> Spec.neighbours self_ranges self_coords 2 0.
Proof. split_and!; by_evaluation. Qed.

(** ** Monotone refinement *)



Section Monotone.
Context `{L : Libs}.

End Monotone.

(** ** The executable instances meet the assumptions made on the routines *)

Lemma sqrt_floor_nonneg (x : Qc) : 0 ≤ Standin.sqrt_floor x.
Proof.
  unfold Standin.sqrt_floor, num. rewrite <- Z2Qc_inj_0.
  apply (proj1 (Z2Qc_inj_le _ _)), Z.sqrt_nonneg.
Qed.

Lemma fmin_probe_length (f : list Qc → list Qc * Qc) (x : list Qc) :
  length (Standin.fmin_probe f x) = length x.
Proof.
  unfold Standin.fmin_probe.
  set (cands := _ ≫= _).
  assert (Forall (λ c : list Qc, length c = length x) cands) as Hc.
  { unfold cands. apply Forall_bind, Forall_forall. intros k _.
    repeat constructor; apply length_alter. }
  clearbody cands. generalize (eq_refl (length x)).
  generalize x at 1 3 as best. 
  induction Hc as [|c cands Hc _ IH]; intros best Hb; cbn; [done|].
  apply IH. by case_bool_decide.
Qed.


(** ** More on Stage 1 and on the calibration run *)

Section StageOneRuns.
Context `{L : Libs}.

Lemma gather_loop_value (l : loc) (S m : matrix) (i : nat) (h : heap) (ks : list nat)
    (cs : matrix) (rs : vector) :
  h !! l = Some m →
  for_each ks
    (λ k '(_anchors_coords, _ranges),
       do r <- lift (lookup2 S i k);
       if bool_decide (r < 0) then ret (_anchors_coords, _ranges)
       else do c <- load_row l k;
            ret (_anchors_coords ++ [c], _ranges ++ [r]))
    (cs, rs) h
  = found ← mapM (λ k, r ← lookup2 S i k;
                       if bool_decide (r < 0) then Some None
                       else c ← m !! k; Some (Some (c, r))) ks;
    Some ((cs ++ (omap id found).*1, rs ++ (omap id found).*2), h).
Proof.
  intros Hm. revert cs rs. induction ks as [|k ks IH]; intros cs rs.
  - simpl. rewrite !app_nil_r. reflexivity.
  - cbn [for_each mapM]. unfold bind at 1. unfold bind at 1. unfold lift at 1.
    destruct (lookup2 S i k) as [r|] eqn:Hr; [|done].
    cbn [mbind option_bind].
    case_bool_decide as Hneg.
    + unfold ret at 1. rewrite IH. cbn [mbind option_bind].
      by destruct (mapM _ ks).
    + unfold load_row, load. unfold bind at 1. unfold bind at 1.
      rewrite Hm. cbn [mbind option_bind]. unfold lift at 1.
      destruct (m !! k) as [c|]; [|done].
      cbn [mbind option_bind]. unfold ret at 1.
      rewrite IH.
      destruct (mapM _ ks) as [found|]; [|done].
      cbn. by rewrite <- !app_assoc.
Qed.

Lemma gather_value_run (l : loc) (S m : matrix) (n i : nat) (h : heap) :
  h !! l = Some m →
  gather l S n i h = (r ← gather_value S m n i; Some (r, h)).
Proof.
  intros Hm. unfold gather, gather_value.
  rewrite (gather_loop_value l S m i h) by done.
  by destruct (mapM _ (seq 0 n)).
Qed.

Lemma update_value_run (self : AutocalibrationSolver) (S m : matrix) (n i : nat) (h : heap) :
  h !! autocalibrated_coords self = Some m →
  update_anchor self S n i () h
  = m' ← update_value (fixed_anchors self) (LSq_min_anchors self) S n m i;
    Some ((), <[autocalibrated_coords self := m']> h).
Proof.
  intros Hm. unfold update_anchor, update_value.
  unfold bind at 1. unfold lift at 1.
  destruct (fixed_anchors self !! i) as [[]|]; cbn [mbind option_bind]; [|  |done].
  { unfold ret. by rewrite list_insert_id. }
  unfold bind at 1. rewrite (gather_value_run _ _ m) by done.
  destruct (gather_value S m n i) as [[cs rs]|]; cbn [mbind option_bind]; [|done].
  case_bool_decide; [|cbn; unfold ret; by rewrite list_insert_id].
  unfold bind at 1. unfold lift at 1.
  destruct (coordinatesOpt cs rs) as [x|]; cbn [mbind option_bind]; [|done].
  unfold store_row, bind, load, lift, store. rewrite Hm. cbn [mbind option_bind].
  destruct (set_row m i x) as [m'|]; cbn [mbind option_bind]; [|done].
  by rewrite Hm.
Qed.

Lemma pass_value_run (self : AutocalibrationSolver) (S : matrix) (n : nat) (ks : list nat)
    (m : matrix) (h : heap) :
  h !! autocalibrated_coords self = Some m →
  for_each ks (update_anchor self S n) () h
  = m' ← pass_value (fixed_anchors self) (LSq_min_anchors self) S n ks m;
    Some ((), <[autocalibrated_coords self := m']> h).
Proof.
  revert m h. induction ks as [|k ks IH]; intros m h Hm.
  - cbn. unfold ret. by rewrite list_insert_id.
  - cbn [for_each pass_value]. unfold bind at 1.
    rewrite (update_value_run _ _ m) by done.
    destruct (update_value _ _ S n m k) as [m1|]; cbn [mbind option_bind]; [|done].
    rewrite (IH m1) by (apply list_lookup_insert_eq; by eapply lookup_lt_Some).
    destruct (pass_value _ _ S n ks m1) as [m2|]; cbn [mbind option_bind]; [|done].
    by rewrite list_insert_insert_eq.
Qed.

Lemma loop_value_run (self : AutocalibrationSolver) (S : matrix) (n t : nat)
    (m : matrix) (h : heap) :
  h !! autocalibrated_coords self = Some m →
  match stageOne_loop t self S n h with
  | Some (_, h') =>
      ∃ m' tl, loop_value t (fixed_anchors self) (LSq_min_anchors self)
                          (convergence_thresh self) S n m = Some m'
               ∧ h' = <[autocalibrated_coords self := m']> h ++ tl
  | None => loop_value t (fixed_anchors self) (LSq_min_anchors self)
                       (convergence_thresh self) S n m = None
  end.
Proof.
  revert m h. induction t as [|t IH]; intros m h Hm.
  - cbn. exists m, []. by rewrite list_insert_id, app_nil_r.
  - cbn [stageOne_loop loop_value].
    pose proof (lookup_lt_Some _ _ _ Hm) as Hl.
    unfold bind at 1. unfold np_copy, bind at 1, load at 1, alloc at 1.
    rewrite Hm. cbn [mbind option_bind].
    unfold bind at 1.
    rewrite (pass_value_run _ _ _ _ m) by (by rewrite lookup_app_l).
    destruct (pass_value _ _ S n (seq 0 n) m) as [m1|]; cbn [mbind option_bind]; [|done].
    set (h1 := <[autocalibrated_coords self := m1]> (h ++ [m])).
    assert (h1 !! autocalibrated_coords self = Some m1) as Hm1.
    { apply list_lookup_insert_eq. rewrite length_app. lia. }
    assert (h1 !! length h = Some m) as Hold.
    { unfold h1. rewrite list_lookup_insert_ne by lia. by apply list_lookup_middle. }
    assert (h1 = <[autocalibrated_coords self := m1]> h ++ [m]) as Hh1.
    { unfold h1. by rewrite insert_app_l. }
    unfold bind at 1. unfold load at 1. rewrite Hm1. cbn [mbind option_bind].
    unfold bind at 1. unfold load at 1. rewrite Hold. cbn [mbind option_bind].
    case_bool_decide.
    + exists m1, [m]. done.
    + specialize (IH m1 h1 Hm1).
      destruct (stageOne_loop t self S n h1) as [[[] h']|]; [|done].
      destruct IH as (m' & tl & Hit & ->).
      exists m', ([m] ++ tl). split; [done|].
      rewrite Hh1. rewrite insert_app_l by (rewrite length_insert; lia).
      by rewrite list_insert_insert_eq, <- app_assoc.
Qed.

(** [stageOne] on a store: it raises exactly when the initial guess is not
    in the store or [stageOne_value] raises on its values, and otherwise
    puts that value in a fresh buffer, after which come the copies the
    passes leave behind. *)
Lemma stageOne_value_run (self : AutocalibrationSolver) (sample_idx : option nat)
    (h : heap) (guess : matrix) :
  h !! initial_guess self = Some guess →
  match stageOne self sample_idx h with
  | Some (s', h') =>
      ∃ est tl, stageOne_value self sample_idx guess = Some est
                ∧ s' = set_autocalibrated_coords self (length h)
                ∧ h' = h ++ [est] ++ tl
  | None => stageOne_value self sample_idx guess = None
  end.
Proof.
  intros Hg. unfold stageOne, stageOne_value.
  set (self' := set_autocalibrated_coords self (length h)).
  unfold bind at 1. unfold np_copy, bind at 1, load at 1, alloc at 1.
  rewrite Hg. cbn [mbind option_bind].
  unfold bind at 1. unfold lift at 1.
  change (stageOne_samples (set_autocalibrated_coords self (length h)) sample_idx)
    with (stageOne_samples self sample_idx).
  destruct (stageOne_samples self sample_idx) as [S|]; cbn [mbind option_bind]; [|done].
  fold self'.
  pose proof (loop_value_run self' S (length (samples_ijk self)) (max_iters self) guess
                (h ++ [guess]) (list_lookup_middle h [] guess (length h) eq_refl)) as Hloop.
  change (max_iters self') with (max_iters self).
  unfold bind at 1.
  destruct (stageOne_loop (max_iters self) self' S _ (h ++ [guess])) as [[[] h1]|].
  - destruct Hloop as (m' & tl & Hit & ->). unfold ret.
    exists m', tl. split; [exact Hit|]. split; [done|].
    change (autocalibrated_coords self') with (length h).
    replace (length h) with (length h + 0)%nat at 1 by lia.
    rewrite insert_app_r. cbn. by rewrite <- app_assoc.
  - exact Hloop.
Qed.

End StageOneRuns.

Section StageOneFacts.
Context `{L : Libs}.

(** The ranges gathered for anchor [i] are the entries of its row that are
    not negative, in order, and as many coordinates are gathered. *)
Lemma gather_value_ranges (S est : matrix) (n i : nat) (cs : matrix) (rs row : vector) :
  gather_value S est n i = Some (cs, rs) → S !! i = Some row →
  rs = filter (λ r, 0 ≤ r) (take n row) ∧ length cs = length rs.
Proof.
  unfold gather_value. intros Hg Hrow.
  destruct (mapM _ (seq 0 n)) as [found|] eqn:Hfound; [|done].
  cbn in Hg. injection Hg as <- <-. split; [|by rewrite !length_fmap].
  assert (∀ k, lookup2 S i k = row !! k) as Hlk
    by (intros k; unfold lookup2; by rewrite Hrow).
  rewrite <- (drop_0 row). revert Hfound. generalize 0%nat as a.
  revert found. induction n as [|n IH]; intros found a Hfound.
  - cbn in Hfound. injection Hfound as <-. reflexivity.
  - cbn [seq mapM] in Hfound.
    rewrite (Hlk a) in Hfound.
    destruct (row !! a) as [r|] eqn:Hr; cbn [mbind option_bind] in Hfound; [|done].
    rewrite (drop_S _ _ _ Hr). cbn [take].
    case_bool_decide as Hneg.
    + cbn [mbind option_bind] in Hfound.
      destruct (mapM _ (seq _ n)) as [ys|] eqn:Hys; [|done].
      cbn in Hfound. injection Hfound as <-.
      rewrite filter_cons_False by (by apply Qclt_not_le).
      cbn [omap list_omap id]. by apply IH.
    + destruct (est !! a) as [c|]; [|done]. cbn [mbind option_bind] in Hfound.
      destruct (mapM _ (seq _ n)) as [ys|] eqn:Hys; [|done].
      cbn in Hfound. injection Hfound as <-.
      rewrite filter_cons_True by (by apply Qcnot_lt_le).
      cbn [omap list_omap id fmap list_fmap snd]. f_equal. by apply IH.
Qed.

Lemma update_value_rows (fixed : list bool) (min : Z) (S : matrix) (n : nat)
    (est est' : matrix) (i : nat) :
  update_value fixed min S n est i = Some est' →
  length est' = length est ∧ ∀ j, j ≠ i → est' !! j = est !! j.
Proof.
  unfold update_value.
  destruct (fixed !! i) as [[]|]; cbn [mbind option_bind]; [by intros [= <-]| |done].
  destruct (gather_value S est n i) as [[cs rs]|]; cbn [mbind option_bind]; [|done].
  case_bool_decide; [|by intros [= <-]].
  destruct (coordinatesOpt cs rs) as [x|]; cbn [mbind option_bind]; [|done].
  intros Hset. split; [by eapply set_row_other|].
  intros j Hj. by eapply set_row_other.
Qed.

(** An anchor with fewer valid ranges than [LSq_min_anchors] is not
    written. *)
Lemma update_value_starved (fixed : list bool) (min : Z) (S : matrix) (n : nat)
    (est est' : matrix) (i : nat) (row : vector) :
  update_value fixed min S n est i = Some est' →
  S !! i = Some row →
  (Z.of_nat (length (filter (λ r : Qc, (0 ≤ r)%Qc) (take n row))) < min)%Z →
  est' = est.
Proof.
  unfold update_value. intros Hup Hrow Hfew.
  destruct (fixed !! i) as [[]|]; cbn [mbind option_bind] in Hup; [by injection Hup| |done].
  destruct (gather_value S est n i) as [[cs rs]|] eqn:Hg; cbn [mbind option_bind] in Hup;
    [|done].
  destruct (gather_value_ranges _ _ _ _ _ _ _ Hg Hrow) as [-> Hlen].
  rewrite bool_decide_false in Hup by lia. by injection Hup.
Qed.

Lemma pass_value_starved (fixed : list bool) (min : Z) (S : matrix) (n : nat)
    (ks : list nat) (est est' : matrix) (j : nat) (row : vector) :
  pass_value fixed min S n ks est = Some est' →
  S !! j = Some row →
  (Z.of_nat (length (filter (λ r : Qc, (0 ≤ r)%Qc) (take n row))) < min)%Z →
  length est' = length est ∧ est' !! j = est !! j.
Proof.
  intros Hpass Hrow Hfew. revert est Hpass.
  induction ks as [|k ks IH]; intros est Hpass.
  - by injection Hpass as <-.
  - cbn [pass_value] in Hpass.
    destruct (update_value fixed min S n est k) as [est1|] eqn:Hup;
      cbn [mbind option_bind] in Hpass; [|done].
    destruct (IH _ Hpass) as [Hl Hj].
    destruct (update_value_rows _ _ _ _ _ _ _ Hup) as [Hl1 Hother].
    split; [congruence|]. rewrite Hj.
    destruct (decide (j = k)) as [->|Hne]; [|by apply Hother].
    by rewrite (update_value_starved _ _ _ _ _ _ _ _ Hup Hrow Hfew).
Qed.

Lemma loop_value_starved (t : nat) (fixed : list bool) (min : Z) (thresh : Qc)
    (S : matrix) (n : nat) (est est' : matrix) (j : nat) (row : vector) :
  loop_value t fixed min thresh S n est = Some est' →
  S !! j = Some row →
  (Z.of_nat (length (filter (λ r : Qc, (0 ≤ r)%Qc) (take n row))) < min)%Z →
  length est' = length est ∧ est' !! j = est !! j.
Proof.
  intros Hloop Hrow Hfew. revert est Hloop.
  induction t as [|t IH]; intros est Hloop.
  - by injection Hloop as <-.
  - cbn [loop_value] in Hloop.
    destruct (pass_value fixed min S n (seq 0 n) est) as [cur|] eqn:Hpass;
      cbn [mbind option_bind] in Hloop; [|done].
    destruct (pass_value_starved _ _ _ _ _ _ _ _ _ Hpass Hrow Hfew) as [Hl Hj].
    case_bool_decide.
    + by injection Hloop as <-.
    + destruct (IH _ Hloop) as [Hl' Hj']. split; congruence.
Qed.

(** X1.  An anchor with fewer valid ranges than [LSq_min_anchors] -- one
    whose ranges are all missing, say -- keeps its initial guess through
    Stage 1. *)
Theorem stageOne_keeps_starved (self s' : AutocalibrationSolver) (sample_idx : option nat)
    (h h' : heap) (guess samples_ik : matrix) (j : nat) (row : vector) :
  h !! initial_guess self = Some guess →
  stageOne self sample_idx h = Some (s', h') →
  stageOne_samples self sample_idx = Some samples_ik →
  samples_ik !! j = Some row →
  (Z.of_nat (length (filter (λ r : Qc, (0 ≤ r)%Qc) (take (length (samples_ijk self)) row)))
   < LSq_min_anchors self)%Z →
  ∃ est, h' !! autocalibrated_coords s' = Some est
         ∧ length est = length guess
         ∧ est !! j = guess !! j.
Proof.
  intros Hg Hrun HS Hrow Hfew.
  pose proof (stageOne_value_run self sample_idx h guess Hg) as Hv.
  rewrite Hrun in Hv. destruct Hv as (est & tl & Hval & -> & ->).
  exists est. split.
  { cbn. by apply list_lookup_middle. }
  unfold stageOne_value in Hval. rewrite HS in Hval. cbn [mbind option_bind] in Hval.
  by eapply loop_value_starved.
Qed.

Lemma stageOne_run_frame (self s' : AutocalibrationSolver) (sample_idx : option nat)
    (h h' : heap) :
  stageOne self sample_idx h = Some (s', h') →
  s' = set_autocalibrated_coords self (length h)
  ∧ (∀ l m, h !! l = Some m → h' !! l = Some m)
  ∧ h !! autocalibrated_coords s' = None
  ∧ is_Some (h' !! autocalibrated_coords s').
Proof.
  intros Hrun.
  destruct (h !! initial_guess self) as [guess|] eqn:Hg; last first.
  { unfold stageOne, bind, np_copy, bind, load in Hrun. by rewrite Hg in Hrun. }
  pose proof (stageOne_value_run self sample_idx h guess Hg) as Hv.
  rewrite Hrun in Hv. destruct Hv as (est & tl & Hval & -> & ->).
  split_and!; [done| | |].
  - intros l m Hl. by apply lookup_app_l_Some.
  - cbn. by apply lookup_ge_None_2.
  - exists est. cbn. by apply list_lookup_middle.
Qed.

(** X2.  [stageOne] writes no buffer that was in the store: it puts its
    estimate in a fresh one, and the solver object changes in its
    [autocalibrated_coords] attribute only. *)
Theorem stageOne_frame (self s' : AutocalibrationSolver) (sample_idx : option nat)
    (h h' : heap) :
  stageOne self sample_idx h = Some (s', h') →
  s' = set_autocalibrated_coords self (length h)
  ∧ (∀ l m, h !! l = Some m → h' !! l = Some m)
  ∧ h !! autocalibrated_coords s' = None
  ∧ is_Some (h' !! autocalibrated_coords s').
Proof. apply stageOne_run_frame. Qed.

(** X3.  After Stage 1 the row of every fixed anchor is its row in the
    initial guess, and the estimate has as many rows as the guess, for
    every input. *)
Theorem stageOne_fixed_rows (self s' : AutocalibrationSolver) (sample_idx : option nat)
    (h h' : heap) (guess : matrix) :
  h !! initial_guess self = Some guess →
  stageOne self sample_idx h = Some (s', h') →
  ∃ est, h' !! autocalibrated_coords s' = Some est
         ∧ length est = length guess
         ∧ ∀ j, fixed_anchors self !! j = Some true → est !! j = guess !! j.
Proof. apply stageOne_keeps_fixed. Qed.

(** X4.  The estimate [stageOne] computes depends on the store through the
    values of the initial guess only. *)
Theorem stageOne_depends_on_guess (self : AutocalibrationSolver) (sample_idx : option nat)
    (h1 h2 : heap) :
  h1 !! initial_guess self = h2 !! initial_guess self →
  fst <$> (do s <- stageOne self sample_idx; load (autocalibrated_coords s)) h1
  = fst <$> (do s <- stageOne self sample_idx; load (autocalibrated_coords s)) h2.
Proof.
  assert (∀ h g, h !! initial_guess self = Some g →
    fst <$> (do s <- stageOne self sample_idx; load (autocalibrated_coords s)) h
    = stageOne_value self sample_idx g) as Hval.
  { intros h g Hg. pose proof (stageOne_value_run self sample_idx h g Hg) as Hv.
    unfold bind, load.
    destruct (stageOne self sample_idx h) as [[s1 h1']|]; [|done].
    destruct Hv as (est & tl & -> & -> & ->). cbn.
    by rewrite list_lookup_middle. }
  intros Heq. destruct (h1 !! initial_guess self) as [g|] eqn:Hg1.
  - by rewrite (Hval h1 g), (Hval h2 g).
  - symmetry in Heq. unfold stageOne, bind, np_copy, bind, load.
    by rewrite Hg1, Heq.
Qed.

End StageOneFacts.

Section StageOneRaises.
Context `{L : Libs}.

Lemma gather_value_nothing (S est : matrix) (n i : nat) (row : vector) :
  S !! i = Some row → (n ≤ length row)%nat → Forall (λ r, r < 0) (take n row) →
  gather_value S est n i = Some ([], []).
Proof.
  intros Hrow Hn Hneg.
  destruct (gather_value S est n i) as [[cs rs]|] eqn:Hg.
  - destruct (gather_value_ranges _ _ _ _ _ _ _ Hg Hrow) as [-> Hlen].
    assert (filter (λ r : Qc, 0 ≤ r) (take n row) = []) as Hnil.
    { clear -Hneg. induction Hneg as [|r rs Hr _ IH]; [done|].
      rewrite filter_cons_False by (by apply Qclt_not_le). exact IH. }
    rewrite Hnil in Hlen |- *. by destruct cs.
  - exfalso. unfold gather_value in Hg.
    destruct (mapM _ (seq 0 n)) as [found|] eqn:Hfound; [done|].
    assert (is_Some (mapM (λ k, r ← lookup2 S i k;
                                 if bool_decide (r < 0) then Some None
                                 else c ← est !! k; Some (Some (c, r))) (seq 0 n))) as [? HS];
      [|congruence].
    apply mapM_is_Some, Forall_forall. intros k Hk. apply elem_of_seq in Hk.
    destruct (lookup_lt_is_Some_2 row k) as [r Hr]; [lia|].
    assert (r < 0) as Hr0.
    { eapply (Forall_lookup_1 _ _ k _ Hneg). rewrite lookup_take_lt by lia. done. }
    cbn. unfold lookup2. rewrite Hrow. cbn. rewrite Hr. cbn.
    by rewrite bool_decide_true.
Qed.

Lemma pass_value_raises (fixed : list bool) (min : Z) (S : matrix) (n : nat)
    (ks : list nat) (i : nat) :
  i ∈ ks →
  (∀ est, update_value fixed min S n est i = None) →
  ∀ est, pass_value fixed min S n ks est = None.
Proof.
  intros Hi Hup. induction ks as [|k ks IH]; intros est; [by apply elem_of_nil in Hi|].
  cbn [pass_value]. apply elem_of_cons in Hi as [<-|Hi].
  - by rewrite Hup.
  - destruct (update_value fixed min S n est k); [|done]. by apply IH.
Qed.

(** X5.  With [LSq_min_anchors <= 0], a free anchor none of whose ranges is
    valid makes [stageOne] raise (the IndexError of [coordinatesOpt] on no
    neighbour), as soon as one pass is made. *)
Theorem stageOne_raises_without_neighbours (self : AutocalibrationSolver)
    (sample_idx : option nat) (h : heap) (samples_ik : matrix) (i : nat) (row : vector) :
  stageOne_samples self sample_idx = Some samples_ik →
  (i < length (samples_ijk self))%nat →
  fixed_anchors self !! i = Some false →
  samples_ik !! i = Some row →
  (length (samples_ijk self) ≤ length row)%nat →
  Forall (λ r, r < 0) (take (length (samples_ijk self)) row) →
  (LSq_min_anchors self ≤ 0)%Z →
  max_iters self ≠ 0%nat →
  stageOne self sample_idx h = None.
Proof.
  intros HS Hi Hfree Hrow Hlen Hneg Hmin Hiters.
  assert (∀ guess, stageOne_value self sample_idx guess = None) as Hval.
  { intros guess. unfold stageOne_value. rewrite HS. cbn [mbind option_bind].
    destruct (max_iters self) as [|t]; [done|]. cbn [loop_value].
    rewrite (pass_value_raises _ _ _ _ _ i); [done|by apply elem_of_seq; lia|].
    intros est. unfold update_value. rewrite Hfree. cbn [mbind option_bind].
    rewrite (gather_value_nothing _ _ _ _ row) by done. cbn [mbind option_bind].
    by rewrite bool_decide_true by (cbn; lia). }
  destruct (h !! initial_guess self) as [guess|] eqn:Hg.
  - pose proof (stageOne_value_run self sample_idx h guess Hg) as Hv.
    destruct (stageOne self sample_idx h) as [[s' h']|]; [|done].
    destruct Hv as (est & tl & Hest & _). by rewrite Hval in Hest.
  - unfold stageOne, bind, np_copy, bind, load. by rewrite Hg.
Qed.

End StageOneRaises.

Section Runs.
Context `{L : Libs}.

(** The values in a calibration run's output, from the values of the
    initial guess: the Stage 1 estimate, provided Stage 2 returns on it. *)
Lemma calibration_run_values (solver : AutocalibrationSolver) (j : nat)
    (h : heap) (guess : matrix) :
  h !! initial_guess solver = Some guess →
  fst <$> (do '(s, out) <- calibration_run solver j; load out) h
  = (est ← stageOne_value solver (Some j) guess;
     S2 ← stageTwo_samples solver (Some j);
     a' ← T_reshape3 est;
     _ ← costOpt_result S2 (fixed_anchors solver) a';
     Some est).
Proof.
  intros Hg. pose proof (stageOne_value_run solver (Some j) h guess Hg) as Hv.
  unfold calibration_run. unfold bind at 1 2.
  destruct (stageOne solver (Some j) h) as [[s1 h1]|]; last first.
  { by rewrite Hv. }
  destruct Hv as (est & tl & -> & -> & ->). cbn [mbind option_bind].
  unfold bind at 1. unfold stageTwo. unfold bind at 1. unfold lift at 1.
  change (stageTwo_samples (set_autocalibrated_coords solver (length h)) (Some j))
    with (stageTwo_samples solver (Some j)).
  destruct (stageTwo_samples solver (Some j)) as [S2|]; cbn [mbind option_bind]; [|done].
  rewrite costOpt_eq.
  change (autocalibrated_coords (set_autocalibrated_coords solver (length h)))
    with (length h).
  change (fixed_anchors (set_autocalibrated_coords solver (length h)))
    with (fixed_anchors solver).
  change ([est] ++ tl) with (est :: tl).
  rewrite (list_lookup_middle h tl est (length h) eq_refl). cbn [mbind option_bind].
  destruct (T_reshape3 est) as [a'|]; cbn [mbind option_bind]; [|done].
  destruct (costOpt_result S2 (fixed_anchors solver) a') as [res|];
    cbn [mbind option_bind]; [|done].
  assert (∀ extra,
    (do out <- np_copy (length h);
     ret (set_autocalibrated_coords solver (length h), out)) ((h ++ est :: tl) ++ extra)
    = Some ((set_autocalibrated_coords solver (length h),
             length ((h ++ est :: tl) ++ extra)),
            ((h ++ est :: tl) ++ extra) ++ [est])) as Hcopy.
  { intros extra. unfold np_copy, bind, load, alloc, ret.
    rewrite <- app_assoc, <- app_comm_cons.
    by rewrite (list_lookup_middle h _ est (length h) eq_refl). }
  case_bool_decide; rewrite Hcopy; cbn; unfold load;
    by rewrite list_lookup_middle.
Qed.

Lemma calibration_run_frame (solver s1 : AutocalibrationSolver) (j : nat)
    (h h1 : heap) (out : loc) :
  calibration_run solver j h = Some ((s1, out), h1) →
  s1 = set_autocalibrated_coords solver (length h)
  ∧ ∀ l m, h !! l = Some m → h1 !! l = Some m.
Proof.
  unfold calibration_run. unfold bind at 1.
  destruct (stageOne solver (Some j) h) as [[s h']|] eqn:H1; [|done].
  destruct (stageOne_run_frame _ _ _ _ _ H1) as (-> & Hfr1 & _).
  unfold bind at 1.
  destruct (stageTwo _ (Some j) h') as [[r h2]|] eqn:H2; [|done].
  destruct (stageTwo_run_frame _ _ _ _ _ H2) as (Hfr2 & _).
  unfold np_copy, bind, load, alloc, ret.
  destruct (h2 !! _) as [m|]; cbn; [|done].
  intros [= <- <- <-]. split; [done|].
  intros l m' Hl. apply lookup_app_l_Some. auto.
Qed.

(** X6.  A calibration run does not depend on the runs before it: after a
    run for sample [j1], the run for sample [j2] on the solver and the store
    it left gives the output it gives on the solver and the store as they
    were. *)
Theorem calibration_runs_independent (solver s1 : AutocalibrationSolver) (j1 j2 : nat)
    (h h1 : heap) (out1 : loc) :
  calibration_run solver j1 h = Some ((s1, out1), h1) →
  fst <$> (do '(s, out) <- calibration_run s1 j2; load out) h1
  = fst <$> (do '(s, out) <- calibration_run solver j2; load out) h.
Proof.
  intros Hrun. destruct (calibration_run_frame _ _ _ _ _ _ Hrun) as [-> Hfr].
  destruct (h !! initial_guess solver) as [guess|] eqn:Hg; last first.
  { exfalso. revert Hrun. unfold calibration_run, bind, stageOne, bind, np_copy, bind, load.
    by rewrite Hg. }
  rewrite (calibration_run_values solver j2 h guess Hg).
  by rewrite (calibration_run_values (set_autocalibrated_coords solver (length h))
                j2 h1 guess (Hfr _ _ Hg)).
Qed.

(** X7.  Whatever the optimizer, the output of a calibration run and the
    estimate the solver holds after it are the Stage 1 estimate: the array
    [stageTwo] returns is dropped. *)
Theorem calibration_run_returns_stage_one (solver s' : AutocalibrationSolver) (j : nat)
    (h h' : heap) (out : loc) :
  calibration_run solver j h = Some ((s', out), h') →
  ∃ h1 r h2,
    stageOne solver (Some j) h = Some (s', h1)
    ∧ stageTwo s' (Some j) h1 = Some (r, h2)
    ∧ h' !! out = h1 !! autocalibrated_coords s'
    ∧ h' !! autocalibrated_coords s' = h1 !! autocalibrated_coords s'.
Proof. apply calibration_run_output. Qed.

End Runs.

(** ** The cost *)

Lemma sq_nonneg (x : Qc) : 0 ≤ sq x.
Proof.
  unfold sq. destruct (Qclt_le_dec x 0) as [Hx|Hx].
  - replace (x * x) with ((- x) * (- x)) by ring.
    assert (0 ≤ - x) as Hn.
    { apply Qclt_le_weak in Hx. apply Qcopp_le_compat in Hx.
      by replace (- 0) with 0 in Hx by ring. }
    replace 0 with (0 * - x) by ring. by apply Qcmult_le_compat_r.
  - replace 0 with (0 * x) by ring. by apply Qcmult_le_compat_r.
Qed.

Lemma vsum_nonneg (v : vector) : Forall (λ x, 0 ≤ x) v → 0 ≤ vsum v.
Proof.
  induction 1 as [|x v Hx _ IH]; [done|].
  change (vsum (x :: v)) with (x + vsum v).
  replace 0 with (0 + 0) by ring. by apply Qcplus_le_compat.
Qed.

Lemma vsum_zero (v : vector) : Forall (λ x, x = 0) v → vsum v = 0.
Proof.
  induction 1 as [|x v Hx _ IH]; [done|].
  change (vsum (x :: v)) with (x + vsum v). rewrite Hx, IH. ring.
Qed.

Lemma cost_matrix_lookup (R Θ : matrix) (i j : nat) (ti tj : vector) (r : Qc) :
  Θ !! i = Some ti → Θ !! j = Some tj → lookup2 R i j = Some r →
  lookup2 (cost_matrix R Θ) i j
  = Some (let d := vsum (map sq (vsub ti tj)) in
          if bool_decide (r < 0) then 0
          else if bool_decide (d = 0) then 0
          else sq (d - sq r)).
Proof.
  intros Hti Htj. unfold lookup2, cost_matrix.
  rewrite !lookup_zip_with, list_lookup_fmap, Hti.
  destruct (R !! i) as [Ri|]; [|done].
  cbn [mbind option_bind fmap option_fmap option_map].
  rewrite !lookup_zip_with, list_lookup_fmap, Htj.
  destruct (Ri !! j) as [r'|]; [|done].
  cbn [mbind option_bind fmap option_fmap option_map].
  by intros [= ->].
Qed.

Lemma cost_matrix_entry_inv (R Θ : matrix) (i j : nat) (c : Qc) :
  lookup2 (cost_matrix R Θ) i j = Some c →
  ∃ ti tj r, Θ !! i = Some ti ∧ Θ !! j = Some tj ∧ lookup2 R i j = Some r.
Proof.
  unfold lookup2, cost_matrix.
  rewrite !lookup_zip_with, list_lookup_fmap.
  destruct (R !! i) as [Ri|]; [|done].
  destruct (Θ !! i) as [ti|]; [|done].
  cbn [mbind option_bind fmap option_fmap option_map].
  rewrite !lookup_zip_with, list_lookup_fmap.
  destruct (Ri !! j) as [r|]; [|done].
  destruct (Θ !! j) as [tj|]; [|done]. intros _.
  by exists ti, tj, r.
Qed.

Lemma cost_matrix_forall (P : Qc → Prop) (R Θ : matrix) :
  (∀ i j c, lookup2 (cost_matrix R Θ) i j = Some c → P c) →
  Forall (Forall P) (cost_matrix R Θ).
Proof.
  intros HP. apply Forall_lookup. intros i row Hrow.
  apply Forall_lookup. intros j c Hc. apply (HP i j).
  unfold lookup2. by rewrite Hrow.
Qed.

(** X8.  The cost [_my_opt_func] returns is never negative. *)
Theorem cost_nonneg (R : matrix) (n : nat) (fixed : list bool) (Θi : matrix) (x : vector) :
  0 ≤ (my_opt_func R n fixed Θi x).2.
Proof.
  unfold my_opt_func. cbn [snd]. apply vsum_nonneg, Forall_map.
  eapply Forall_impl; [|exact vsum_nonneg].
  apply cost_matrix_forall. intros i j c Hc.
  destruct (cost_matrix_entry_inv _ _ _ _ _ Hc) as (ti & tj & r & Hti & Htj & Hr).
  rewrite (cost_matrix_lookup _ _ _ _ _ _ _ Hti Htj Hr) in Hc. injection Hc as <-.
  cbn. repeat case_bool_decide; try done. apply sq_nonneg.
Qed.

(** X9.  When no range is valid the cost is 0 at every point. *)
Theorem cost_zero_without_ranges (R : matrix) (n : nat) (fixed : list bool)
    (Θi : matrix) (x : vector) :
  (∀ i j r, lookup2 R i j = Some r → r < 0) →
  (my_opt_func R n fixed Θi x).2 = 0.
Proof.
  intros Hneg. unfold my_opt_func. cbn [snd]. apply vsum_zero, Forall_map.
  eapply Forall_impl; [|exact vsum_zero].
  apply cost_matrix_forall. intros i j c Hc.
  destruct (cost_matrix_entry_inv _ _ _ _ _ Hc) as (ti & tj & r & Hti & Htj & Hr).
  rewrite (cost_matrix_lookup _ _ _ _ _ _ _ Hti Htj Hr) in Hc. injection Hc as <-.
  cbn. by rewrite bool_decide_true by (by eapply Hneg).
Qed.

(** ** Transposing and regrouping *)

Lemma reshape_lookup (n c : nat) (flat : vector) (r : nat) :
  (r < n)%nat → reshape n c flat !! r = Some (take c (drop (r * c) flat)).
Proof.
  revert flat r. induction n as [|n IH]; intros flat r Hr; [lia|].
  destruct r as [|r]; cbn [reshape].
  - by rewrite drop_0.
  - cbn [lookup list_lookup]. change (reshape n c (drop c flat) !! r = Some (take c (drop (S r * c) flat))).
    rewrite IH by lia. by rewrite drop_drop.
Qed.

Lemma concat_lookup_uniform (w : nat) (m : matrix) (p : nat) :
  (0 < w)%nat → Forall (λ r, length r = w) m →
  concat m !! p = (row ← m !! (p `div` w); row !! (p `mod` w)).
Proof.
  intros Hw Hm. revert p. induction Hm as [|r m Hr _ IH]; intros p.
  - cbn. by rewrite lookup_nil.
  - cbn [concat]. destruct (decide (p < w)%nat) as [Hp|Hp].
    + rewrite lookup_app_l by lia.
      rewrite Nat.div_small, Nat.mod_small by lia. done.
    + rewrite lookup_app_r by lia. rewrite Hr, IH.
      assert (p `div` w = S ((p - w) `div` w)) as ->.
      { replace p with ((p - w) + 1 * w)%nat at 1 by lia.
        rewrite Nat.div_add by lia. lia. }
      assert (p `mod` w = (p - w) `mod` w) as ->.
      { replace p with ((p - w) + 1 * w)%nat at 1 by lia.
        by rewrite Nat.Div0.mod_add. }
      done.
Qed.

Lemma transpose_rows (a : matrix) :
  a ≠ [] → Forall (λ r, length r = 3%nat) a →
  transpose a = map (λ c, map (λ row : list Qc, default 0 (row !! c)) a) (seq 0 3).
Proof.
  intros Hne Ha. destruct a as [|r a]; [done|].
  unfold transpose. by rewrite (Forall_inv Ha).
Qed.

(** X10.  On an [N x 3] array, [a.T.reshape(-1, 3)] is the [N x 3] array whose
    entry [(r, c)] is the entry [((3 r + c) mod N, (3 r + c) div N)] of
    [a]. *)
Theorem T_reshape3_entry (a : matrix) :
  Forall (λ r, length r = 3%nat) a →
  ∃ a', T_reshape3 a = Some a'
        ∧ length a' = length a
        ∧ Forall (λ r, length r = 3%nat) a'
        ∧ ∀ r c, (r < length a)%nat → (c < 3)%nat →
            lookup2 a' r c
            = lookup2 a ((3 * r + c) `mod` length a) ((3 * r + c) `div` length a).
Proof.
  intros Ha. destruct (decide (a = [])) as [->|Hne].
  { exists []. split_and!; try done; try (intros r c Hr; cbn in Hr; lia). }
  pose proof (transpose_rows a Hne Ha) as Ht.
  assert (0 < length a)%nat as HN by (destruct a; [done|cbn; lia]).
  assert (Forall (λ r, length r = length a) (transpose a)) as Htr.
  { rewrite Ht. apply Forall_map, Forall_forall. intros c _. by rewrite length_map. }
  assert (length (transpose a) = 3%nat) as Hl3 by (by rewrite Ht, length_map).
  assert (length (concat (transpose a)) = (length a * 3)%nat) as Hflat.
  { rewrite (length_concat_rows (length a)) by done. lia. }
  exists (reshape (length a) 3 (concat (transpose a))).
  split_and!.
  - unfold T_reshape3. rewrite Hflat.
    rewrite bool_decide_true by (by rewrite Nat.Div0.mod_mul).
    by rewrite Nat.div_mul.
  - apply length_reshape.
  - by apply reshape_rows.
  - intros r c Hr Hc. unfold lookup2 at 1.
    rewrite reshape_lookup by done. cbn [mbind option_bind].
    rewrite lookup_take_lt by done. rewrite lookup_drop.
    rewrite (concat_lookup_uniform (length a)) by done.
    replace (r * 3 + c)%nat with (3 * r + c)%nat by lia.
    set (p := (3 * r + c)%nat).
    assert (p `div` length a < 3)%nat as Hq.
    { apply Nat.Div0.div_lt_upper_bound. unfold p. nia. }
    assert (p `mod` length a < length a)%nat as Hk by (apply Nat.mod_upper_bound; lia).
    rewrite Ht, list_lookup_fmap, lookup_seq_lt by done.
    cbn [fmap option_fmap option_map mbind option_bind].
    rewrite list_lookup_fmap. unfold lookup2.
    destruct (lookup_lt_is_Some_2 a (p `mod` length a) Hk) as [row Hrow].
    rewrite Hrow. cbn [fmap option_fmap option_map mbind option_bind].
    destruct (lookup_lt_is_Some_2 row (p `div` length a)) as [x Hx].
    { by rewrite (Forall_lookup_1 _ _ _ _ Ha Hrow). }
    rewrite Nat.add_0_l, Hx. reflexivity.
Qed.

(** ** More on Stage 2, the error and the aggregation *)

Section MoreStageTwo.
Context `{L : Libs}.

(** X11.  The [verbose] flag changes neither what [costOpt] returns nor what
    it leaves in the store, although the cost calls it adds write into
    their argument. *)
Theorem costOpt_verbose_irrelevant (l : loc) (R : matrix) (fixed : list bool) (h : heap) :
  costOpt l R fixed true h = costOpt l R fixed false h.
Proof. by rewrite !costOpt_eq. Qed.

(** X12.  Whatever the optimizer, the array [costOpt] returns has the shape
    of [anchors_coords.T.reshape(-1, 3)] and, in the row of every fixed
    anchor, its values. *)
Theorem costOpt_fixed_rows (l : loc) (R : matrix) (fixed : list bool) (v : bool)
    (h h' : heap) (r : loc) :
  costOpt l R fixed v h = Some (r, h') →
  ∃ a a' res,
    h !! l = Some a ∧ T_reshape3 a = Some a' ∧ h' !! r = Some res
    ∧ length res = length a'
    ∧ Forall (λ row, length row = 3%nat) res
    ∧ ∀ i, fixed !! i = Some true → res !! i = a' !! i.
Proof.
  intros Hrun.
  apply costOpt_frame in Hrun as (_ & _ & a & a' & res & Ha & Ha' & Hres & Hr).
  exists a, a', res. split_and!; try done.
  - unfold costOpt_result in Hres. case_bool_decide; [|done]. injection Hres as <-.
    by rewrite length_pin, length_reshape.
  - unfold costOpt_result in Hres. case_bool_decide; [|done]. injection Hres as <-.
    apply pin_rows; [by eapply T_reshape3_rows|by apply reshape_rows].
  - intros i Hi. destruct (decide (i < length a')%nat) as [Hlt|Hge].
    + by eapply costOpt_result_fixed_row.
    + rewrite (lookup_ge_None_2 a') by lia.
      apply lookup_ge_None_2.
      unfold costOpt_result in Hres. case_bool_decide; [|done]. injection Hres as <-.
      rewrite length_pin, length_reshape. lia.
Qed.


End MoreStageTwo.

Section MoreErrors.
Context `{L : Libs}.

Lemma py_index_3 (ax : Z) :
  (-3 ≤ ax < 3)%Z →
  ∃ k, py_index 3 ax = Some k ∧ (k < 3)%nat
       ∧ k = Z.to_nat (if bool_decide (0 ≤ ax)%Z then ax else 3 + ax).
Proof.
  intros Hax. unfold py_index. case_bool_decide as H0.
  - eexists. split; [done|]. rewrite bool_decide_true by lia. split; [lia|done].
  - rewrite bool_decide_true by lia. eexists. split; [done|].
    rewrite bool_decide_false by lia. split; [lia|done].
Qed.

(** X14.  With an axis between -3 and 2, counted from the end when negative,
    [estimationError] returns one signed difference, estimate minus ground
    truth on that axis, per anchor, and leaves the store as it is. *)
Theorem estimationError_axis_signed (self : AutocalibrationSolver) (gt : loc) (ax : Z)
    (h : heap) (est g : matrix) :
  h !! autocalibrated_coords self = Some est → h !! gt = Some g →
  Forall (λ r, length r = 3%nat) est → Forall (λ r, length r = 3%nat) g →
  length est = length g →
  (-3 ≤ ax < 3)%Z →
  let k := Z.to_nat (if bool_decide (0 ≤ ax)%Z then ax else 3 + ax) in
  estimationError self gt (Some ax) h
  = Some (Arr1 (zip_with (λ e t, default 0 (e !! k) - default 0 (t !! k)) est g), h)
  ∧ length (zip_with (λ e t, default 0 (e !! k) - default 0 (t !! k)) est g) = length est.
Proof.
  intros Hest Hg Hre Hrg Hlen Hax k.
  split; [|rewrite length_zip_with; lia].
  destruct (py_index_3 ax Hax) as (k' & Hk & Hk3 & Hk').
  assert (k' = k) as -> by done.
  unfold estimationError, bind, load, lift, ret. rewrite Hest. simpl. rewrite Hg. simpl.
  set (col := zip_with _ est g).
  assert (mapM (λ row : list Qc, k ← py_index (length row) ax; row !! k) (msub est g)
          = Some col) as ->; [|done].
  apply mapM_Some. unfold col, msub. clear Hest Hg col Hlen.
  revert g Hrg. induction Hre as [|e est He _ IH]; intros [|t g] Hrg; simpl; try constructor.
  - apply Forall_cons in Hrg as [Ht Hrg].
    assert (length (vsub e t) = 3%nat) as Hl by (unfold vsub; rewrite length_zip_with; lia).
    rewrite Hl, Hk. simpl.
    unfold vsub. rewrite lookup_zip_with.
    destruct (lookup_lt_is_Some_2 e k) as [x ->]; [lia|].
    destruct (lookup_lt_is_Some_2 t k) as [y ->]; [lia|]. done.
  - apply Forall_cons in Hrg as [_ Hrg]. by apply IH.
Qed.

(** X15.  On at least one anchor, an axis outside -3 .. 2 makes
    [estimationError] raise. *)
Theorem estimationError_axis_out_of_range (self : AutocalibrationSolver) (gt : loc)
    (ax : Z) (h : heap) (est g : matrix) :
  h !! autocalibrated_coords self = Some est → h !! gt = Some g →
  Forall (λ r, length r = 3%nat) est → Forall (λ r, length r = 3%nat) g →
  est ≠ [] → g ≠ [] →
  (ax < -3 ∨ 3 ≤ ax)%Z →
  estimationError self gt (Some ax) h = None.
Proof.
  intros Hest Hg Hre Hrg Hne Hng Hax.
  unfold estimationError, bind, load, lift, ret. rewrite Hest. simpl. rewrite Hg. simpl.
  destruct est as [|e est]; [done|]. destruct g as [|t g]; [done|].
  apply Forall_cons in Hre as [He _]. apply Forall_cons in Hrg as [Ht _].
  cbn [msub zip_with mapM].
  assert (length (vsub e t) = 3%nat) as Hl by (unfold vsub; rewrite length_zip_with; lia).
  rewrite Hl. unfold py_index.
  rewrite !bool_decide_false by lia. done.
Qed.

End MoreErrors.

Section MoreFilter.
Context `{L : Libs}.

(** X16.  In single-sample filtered mode of [stageTwo] an entry is the raw
    sample when it lies between [np.percentile] of the pair's samples at
    [self.lower_percentile] and at [self.upper_percentile], both ends
    included, and -1 otherwise. *)
Theorem filtered_sample_rule (self : AutocalibrationSolver) (j i k : nat)
    (out plane : matrix) (row col : vector) (v : Qc) :
  stageTwo_samples self (Some j) = Some out →
  samples_ijk self !! i = Some plane → plane !! j = Some row → row !! k = Some v →
  column plane k = Some col →
  lookup2 out i k
  = Some (if bool_decide (np_percentile col (lower_percentile self) ≤ v
                          ∧ v ≤ np_percentile col (upper_percentile self))
          then v else - 1).
Proof. apply filtered_sample_entry. Qed.

(** X17.  The percentile filter never turns a missing sample into a range: a
    negative raw sample gives a negative entry. *)
Theorem filtered_sample_keeps_missing (self : AutocalibrationSolver) (j i k : nat)
    (out plane : matrix) (row col : vector) (v : Qc) :
  stageTwo_samples self (Some j) = Some out →
  samples_ijk self !! i = Some plane → plane !! j = Some row → row !! k = Some v →
  column plane k = Some col →
  v < 0 →
  ∃ w, lookup2 out i k = Some w ∧ w < 0.
Proof.
  intros Hout Hplane Hrow Hv Hcol Hneg.
  rewrite (filtered_sample_entry _ _ _ _ _ _ _ _ _ Hout Hplane Hrow Hv Hcol).
  eexists. split; [done|]. by case_bool_decide.
Qed.

(** X18.  In median mode the range of a pair is -1 when none of its samples
    is positive -- zeros count as missing -- and otherwise [np.median] of
    its positive samples; the matrix has one row and one column per
    anchor. *)
Theorem median_matrix_entries (c : cube) (out : matrix) :
  median_matrix c = Some out →
  length out = length c
  ∧ Forall (λ row, length row = length c) out
  ∧ ∀ i k plane col, c !! i = Some plane → column plane k = Some col →
      (k < length c)%nat →
      lookup2 out i k
      = Some (if bool_decide (filter (λ x, 0 < x) col = [])
              then - 1 else np_median (filter (λ x, 0 < x) col)).
Proof.
  unfold median_matrix. intros Hout.
  pose proof (mapM_Some_1 _ _ _ Hout) as HF2.
  pose proof (Forall2_length _ _ _ HF2) as Hlen. rewrite length_seq in Hlen.
  split; [done|]. split.
  - apply Forall_lookup. intros i row Hrow.
    destruct (Forall2_lookup_r _ _ _ _ _ HF2 Hrow) as (i' & _ & Hi').
    destruct (c !! i') as [plane|]; [|done]. cbn in Hi'.
    apply mapM_Some_1, Forall2_length in Hi'. by rewrite length_seq in Hi'.
  - intros i k plane col Hplane Hcol Hk.
    pose proof (lookup_lt_Some _ _ _ Hplane) as Hi.
    destruct (mapM_lookup _ _ _ i i Hout) as (row & Hrow & Hf).
    { by apply lookup_seq_lt. }
    rewrite Hplane in Hf. cbn in Hf.
    destruct (mapM_lookup _ _ _ k k Hf) as (x & Hx & Hfx).
    { by apply lookup_seq_lt. }
    rewrite Hcol in Hfx. cbn in Hfx. injection Hfx as <-.
    unfold lookup2. rewrite Hrow. cbn. rewrite Hx. f_equal.
    destruct (filter (λ x, 0 < x) col) as [|y ys]; [done|].
    rewrite bool_decide_true by (cbn; lia). by rewrite bool_decide_false.
Qed.

End MoreFilter.

(** ** More on the multilateration subroutine; the fixed-anchor mask *)

Section MoreMultilateration.
Context `{L : Libs}.

(** X19.  On as many ranges as neighbours, [coordinatesOpt] raises exactly
    when there is no neighbour; on a single neighbour it returns. *)
Theorem coordinatesOpt_raises_iff (anchors_coords : matrix) (ranges : vector) :
  length ranges = length anchors_coords →
  coordinatesOpt anchors_coords ranges = None ↔ anchors_coords = [].
Proof.
  intros Hlen. unfold coordinatesOpt. split.
  - destruct (last (map sq ranges)) as [b|] eqn:Hb; cbn [mbind option_bind].
    + destruct (last anchors_coords) as [c|] eqn:Hc; cbn [mbind option_bind]; [done|].
      intros _. by apply last_None.
    + intros _. apply last_None in Hb. destruct ranges; [|done].
      by apply nil_length_inv.
  - intros ->. by destruct (last (map sq ranges)).
Qed.

Lemma coordinatesOpt_A_b (anchors_coords : matrix) (ranges : vector) :
  (1 ≤ length anchors_coords)%nat →
  length ranges = length anchors_coords →
  coordinatesOpt anchors_coords ranges
  = Some (dot (np_pinv (Spec.A anchors_coords)) (Spec.b anchors_coords ranges)).
Proof.
  intros HK Hlen.
  destruct (last anchors_coords) as [c|] eqn:Hc;
    [|apply last_None in Hc; subst; simpl in HK; lia].
  destruct (last ranges) as [r|] eqn:Hr;
    [|apply last_None in Hr; subst; simpl in Hlen; lia].
  apply last_Some in Hc as [C ->]. apply last_Some in Hr as [R ->].
  rewrite !length_app in Hlen. simpl in Hlen.
  unfold coordinatesOpt.
  rewrite coordinatesOpt_A.
  rewrite !map_app. simpl. rewrite !last_snoc. simpl. rewrite !but_last_snoc.
  rewrite coordinatesOpt_b by lia. done.
Qed.

Lemma dot_row_exact (cl ci x : vector) (ri rl : Qc) :
  length cl = 3%nat → length ci = 3%nat → length x = 3%nat →
  sq ri = vsum (map sq (vsub x ci)) → sq rl = vsum (map sq (vsub x cl)) →
  vsum (zip_with Qcmult (map (Qcmult 2) (vsub cl ci)) x)
  = sq ri - sq rl - Spec.norm2 ci + Spec.norm2 cl.
Proof.
  intros Hcl Hci Hx Hi Hl. rewrite Hi, Hl.
  destruct cl as [|a1 [|a2 [|a3 [|]]]]; try done.
  destruct ci as [|b1 [|b2 [|b3 [|]]]]; try done.
  destruct x as [|x1 [|x2 [|x3 [|]]]]; try done.
  cbn. unfold sq. ring.
Qed.

(** X20.  When every range is the exact distance from a point [x] to its
    neighbour, [x] solves the linear system [coordinatesOpt] builds:
    [A x = b], for the [A] (row [i] is twice the last neighbour minus
    neighbour [i]) and the [b] whose pseudo-inverse solution it returns. *)
Theorem coordinatesOpt_system_exact (anchors_coords : matrix) (ranges x : vector) :
  (2 ≤ length anchors_coords)%nat →
  Forall (λ c, length c = 3%nat) anchors_coords →
  length x = 3%nat →
  Forall2 (λ c r, sq r = vsum (map sq (vsub x c))) anchors_coords ranges →
  coordinatesOpt anchors_coords ranges
  = Some (dot (np_pinv (Spec.A anchors_coords)) (Spec.b anchors_coords ranges))
  ∧ dot (Spec.A anchors_coords) x = Spec.b anchors_coords ranges.
Proof.
  intros HK Hrows Hx Hexact.
  pose proof (Forall2_length _ _ _ Hexact) as Hlen.
  split.
  { apply coordinatesOpt_A_b; [lia|by symmetry]. }
  unfold dot, Spec.A, Spec.b. rewrite map_map. apply map_ext_in.
  intros i Hi. apply in_seq in Hi.
  destruct (lookup_lt_is_Some_2 anchors_coords i) as [ci Hci]; [lia|].
  destruct (lookup_lt_is_Some_2 anchors_coords (length anchors_coords - 1)) as [cl Hcl];
    [lia|].
  destruct (Forall2_lookup_l _ _ _ _ _ Hexact Hci) as (ri & Hri & Hei).
  destruct (Forall2_lookup_l _ _ _ _ _ Hexact Hcl) as (rl & Hrl & Hel).
  rewrite Hci, Hcl, Hri, Hrl. cbn [default].
  apply dot_row_exact; try done.
  - by eapply (Forall_lookup_1 _ _ _ _ Hrows).
  - by eapply (Forall_lookup_1 _ _ _ _ Hrows).
Qed.

End MoreMultilateration.

Section MaskFacts.
Context {Id : Type} `{EqDecision Id}.

Lemma list_index_Some (x : Id) (l : list Id) (i : nat) :
  list_index x l = Some i ↔ l !! i = Some x ∧ ∀ j, (j < i)%nat → l !! j ≠ Some x.
Proof.
  unfold list_index. split.
  - destruct (list_find (λ y, y = x) l) as [[i' y]|] eqn:Hf; [|done].
    intros [= <-]. apply list_find_Some in Hf as (Hl & -> & Hmin).
    split; [done|]. intros j Hj Hlj. by apply (Hmin j x).
  - intros [Hl Hmin].
    assert (list_find (λ y, y = x) l = Some (i, x)) as ->; [|done].
    apply list_find_Some. split_and!; try done.
    intros j y Hy Hj ->. by apply (Hmin j).
Qed.

Lemma build_fixed_mask_loop (ids fx : list Id) (m0 : list bool) :
  length m0 = length ids →
  let m := foldl (λ fixed_anchors fixed_anchor_id,
                    match list_index fixed_anchor_id ids with
                    | Some i => <[i := true]> fixed_anchors
                    | None => fixed_anchors
                    end) m0 fx in
  length m = length ids
  ∧ ∀ i, m !! i = Some true
         ↔ m0 !! i = Some true ∨ ∃ x, x ∈ fx ∧ list_index x ids = Some i.
Proof.
  revert m0. induction fx as [|x fx IH]; intros m0 Hlen; cbn.
  - split; [done|]. intros i. split; [by left|].
    intros [?|(x & Hx & _)]; [done|]. by apply elem_of_nil in Hx.
  - destruct (list_index x ids) as [i0|] eqn:Hx.
    + destruct (IH (<[i0 := true]> m0)) as [Hl Hiff]; [by rewrite length_insert|].
      split; [done|]. intros i. rewrite Hiff.
      assert (i0 < length m0)%nat as Hi0.
      { apply list_index_Some in Hx as [Hx _]. apply lookup_lt_Some in Hx. lia. }
      split.
      * intros [Hins|(y & Hy & Hiy)].
        -- destruct (decide (i = i0)) as [->|Hne].
           ++ right. exists x. split; [by left|done].
           ++ left. by rewrite list_lookup_insert_ne in Hins.
        -- right. exists y. split; [by right|done].
      * intros [Hm0|(y & Hy & Hiy)].
        -- left. destruct (decide (i = i0)) as [->|Hne].
           ++ by apply list_lookup_insert_eq.
           ++ by rewrite list_lookup_insert_ne.
        -- apply elem_of_cons in Hy as [->|Hy].
           ++ left. assert (i = i0) as -> by congruence.
              by apply list_lookup_insert_eq.
           ++ right. by exists y.
    + destruct (IH m0 Hlen) as [Hl Hiff]. split; [done|]. intros i. rewrite Hiff.
      split.
      * intros [?|(y & Hy & Hiy)]; [by left|]. right. exists y. split; [by right|done].
      * intros [?|(y & Hy & Hiy)]; [by left|].
        apply elem_of_cons in Hy as [->|Hy]; [congruence|]. right. by exists y.
Qed.

(** X21.  The mask [main] builds has one entry per anchor, and the entry of
    anchor [i] is set exactly when its id is one of the fixed ids and no
    earlier anchor has the same id; fixed ids that name no anchor are
    ignored. *)
Theorem build_fixed_mask_spec (anchor_id_list fixed_anchor_id_list : list Id) :
  length (build_fixed_mask anchor_id_list fixed_anchor_id_list) = length anchor_id_list
  ∧ ∀ i, build_fixed_mask anchor_id_list fixed_anchor_id_list !! i = Some true
         ↔ ∃ x, x ∈ fixed_anchor_id_list
                ∧ anchor_id_list !! i = Some x
                ∧ ∀ j, (j < i)%nat → anchor_id_list !! j ≠ Some x.
Proof.
  destruct (build_fixed_mask_loop anchor_id_list fixed_anchor_id_list
              (replicate (length anchor_id_list) false)) as [Hl Hiff];
    [by rewrite length_replicate|].
  split; [exact Hl|]. intros i. unfold build_fixed_mask. rewrite Hiff. split.
  - intros [Hrep|(x & Hx & Hi)].
    + apply lookup_replicate in Hrep as [? _]. done.
    + exists x. split; [done|]. by apply list_index_Some.
  - intros (x & Hx & Hi). right. exists x. split; [done|]. by apply list_index_Some.
Qed.

End MaskFacts.

(** ** [getData] *)

Lemma broadcast_row_length (n : nat) (v row : vector) :
  broadcast_row n v = Some row → length row = n.
Proof.
  unfold broadcast_row. case_bool_decide; [by intros [= <-]|].
  destruct v as [|x [|]]; try done. intros [= <-]. by rewrite length_replicate.
Qed.

Lemma broadcast_plane_shape (s n : nat) (a : loaded) (p : matrix) :
  broadcast_plane s n a = Some p →
  length p = s ∧ Forall (λ row, length row = n) p.
Proof.
  destruct a as [x|v|m]; cbn.
  - intros [= <-]. rewrite length_replicate. split; [done|].
    apply Forall_replicate. by rewrite length_replicate.
  - destruct (broadcast_row n v) as [row|] eqn:Hrow; cbn; [|done].
    intros [= <-]. rewrite length_replicate. split; [done|].
    apply Forall_replicate. by eapply broadcast_row_length.
  - destruct (mapM (broadcast_row n) m) as [rows|] eqn:Hrows; cbn; [|done].
    assert (Forall (λ row, length row = n) rows) as Hall.
    { apply mapM_Some_1 in Hrows. apply Forall_lookup. intros i row Hi.
      destruct (Forall2_lookup_r _ _ _ _ _ Hrows Hi) as (v & _ & Hv).
      by eapply broadcast_row_length. }
    case_bool_decide; [by intros [= <-]|].
    destruct rows as [|row [|]]; try done. intros [= <-].
    rewrite length_replicate. split; [done|].
    apply Forall_replicate. by apply Forall_inv in Hall.
Qed.

Lemma broadcast_plane_exact (s n : nat) (m : matrix) :
  length m = s → Forall (λ row, length row = n) m →
  broadcast_plane s n (Loaded2 m) = Some m.
Proof.
  intros Hs Hm. cbn.
  assert (mapM (broadcast_row n) m = Some m) as ->.
  { apply mapM_Some. apply Forall2_same_length_lookup. split; [done|].
    intros i x y Hx Hy. assert (x = y) as -> by congruence.
    unfold broadcast_row. rewrite bool_decide_true; [done|].
    by eapply (Forall_lookup_1 _ _ _ _ Hm). }
  cbn. by rewrite bool_decide_true.
Qed.

Section GetDataFacts.
Variable loadtxt : string → option loaded.

(** X22.  When [getData] returns, it returns the number of samples minus
    one (the first sample is discarded) and one plane per anchor, each
    with that many rows and one column per anchor. *)
Theorem getData_shape (PATH_TO_DATA : string) (anchor_id_list : list string)
    (n_samples n' : Z) (c : cube) :
  getData loadtxt PATH_TO_DATA anchor_id_list n_samples = Some (c, n') →
  n' = (n_samples - 1)%Z ∧ (0 ≤ n')%Z
  ∧ length c = length anchor_id_list
  ∧ Forall (λ plane, length plane = Z.to_nat n'
                     ∧ Forall (λ row, length row = length anchor_id_list) plane) c.
Proof.
  unfold getData. case_bool_decide as Hn; [done|].
  destruct (mapM _ anchor_id_list) as [planes|] eqn:Hplanes; cbn; [|done].
  intros [= <- <-]. apply mapM_Some_1 in Hplanes.
  split_and!; [done|lia|by apply Forall2_length in Hplanes|].
  apply Forall_lookup. intros i plane Hi.
  destruct (Forall2_lookup_r _ _ _ _ _ Hplanes Hi) as (id & _ & Hid).
  by apply broadcast_plane_shape in Hid.
Qed.

(** X23.  An anchor whose file cannot be read gets a plane of -1 throughout,
    and the other anchors are read all the same. *)
Theorem getData_missing_file (PATH_TO_DATA : string) (anchor_id_list : list string)
    (n_samples n' : Z) (c : cube) (i : nat) (anchor_id : string) :
  getData loadtxt PATH_TO_DATA anchor_id_list n_samples = Some (c, n') →
  anchor_id_list !! i = Some anchor_id →
  loadtxt (PATH_TO_DATA +:+ "/" +:+ anchor_id +:+ "_ranging_data.txt") = None →
  c !! i = Some (replicate (Z.to_nat n') (replicate (length anchor_id_list) (- 1))).
Proof.
  unfold getData. case_bool_decide as Hn; [done|].
  destruct (mapM _ anchor_id_list) as [planes|] eqn:Hplanes; cbn; [|done].
  intros [= <- <-] Hid Hload.
  destruct (mapM_lookup _ _ _ _ _ Hplanes Hid) as (plane & Hplane & Hb).
  rewrite Hload in Hb. cbn [mbind option_bind] in Hb.
  rewrite broadcast_plane_exact in Hb.
  - congruence.
  - by rewrite length_replicate.
  - apply Forall_replicate. by rewrite length_replicate.
Qed.

(** X24.  An anchor whose file holds [n_samples] rows of one range per
    anchor gets these rows but the first as its plane. *)
Theorem getData_reads_file (PATH_TO_DATA : string) (anchor_id_list : list string)
    (n_samples n' : Z) (c : cube) (i : nat) (anchor_id : string) (m : matrix) :
  getData loadtxt PATH_TO_DATA anchor_id_list n_samples = Some (c, n') →
  anchor_id_list !! i = Some anchor_id →
  loadtxt (PATH_TO_DATA +:+ "/" +:+ anchor_id +:+ "_ranging_data.txt")
  = Some (Loaded2 m) →
  Z.of_nat (length m) = n_samples →
  Forall (λ row, length row = length anchor_id_list) m →
  c !! i = Some (drop 1 m).
Proof.
  unfold getData. case_bool_decide as Hn; [done|].
  destruct (mapM _ anchor_id_list) as [planes|] eqn:Hplanes; cbn; [|done].
  intros [= <- <-] Hid Hload Hrows Hcols.
  destruct (mapM_lookup _ _ _ _ _ Hplanes Hid) as (plane & Hplane & Hb).
  rewrite Hload in Hb. cbn [mbind option_bind drop_first] in Hb.
  rewrite broadcast_plane_exact in Hb.
  - congruence.
  - rewrite length_drop. lia.
  - by apply Forall_drop.
Qed.

(** X25.  A file that holds rows of one range per anchor, but neither
    [n_samples] rows nor two, makes [getData] raise: the whole batch is
    lost. *)
Theorem getData_wrong_length_raises (PATH_TO_DATA : string) (anchor_id_list : list string)
    (n_samples : Z) (i : nat) (anchor_id : string) (m : matrix) :
  anchor_id_list !! i = Some anchor_id →
  loadtxt (PATH_TO_DATA +:+ "/" +:+ anchor_id +:+ "_ranging_data.txt")
  = Some (Loaded2 m) →
  Forall (λ row, length row = length anchor_id_list) m →
  (1 ≤ length m)%nat →
  Z.of_nat (length m) ≠ n_samples →
  length m ≠ 2%nat →
  getData loadtxt PATH_TO_DATA anchor_id_list n_samples = None.
Proof.
  intros Hid Hload Hcols H1 Hrows H2.
  unfold getData. case_bool_decide as Hn; [done|].
  destruct (mapM _ anchor_id_list) as [planes|] eqn:Hplanes; cbn; [|done].
  exfalso.
  destruct (mapM_lookup _ _ _ _ _ Hplanes Hid) as (plane & Hplane & Hb).
  rewrite Hload in Hb. cbn [mbind option_bind drop_first broadcast_plane] in Hb.
  assert (mapM (broadcast_row (length anchor_id_list)) (drop 1 m) = Some (drop 1 m)) as Hm.
  { apply mapM_Some. apply Forall2_same_length_lookup. split; [done|].
    intros k x y Hx Hy. assert (x = y) as -> by congruence.
    unfold broadcast_row. rewrite bool_decide_true; [done|].
    eapply (Forall_lookup_1 _ _ _ _ (Forall_drop _ 1 _ Hcols)). done. }
  rewrite Hm in Hb. cbn [mbind option_bind] in Hb.
  rewrite bool_decide_false in Hb by (rewrite length_drop; lia).
  destruct (drop 1 m) as [|row [|]] eqn:Hd; try done.
  apply (f_equal length) in Hd. rewrite length_drop in Hd. cbn in Hd. lia.
Qed.

(** X26.  A file of exactly two rows gives the anchor its second row as
    every sample, whatever [n_samples] is: the one row left after the first
    is dropped is broadcast over the plane. *)
Theorem getData_two_rows_repeated (PATH_TO_DATA : string) (anchor_id_list : list string)
    (n_samples n' : Z) (c : cube) (i : nat) (anchor_id : string) (r0 r1 : vector) :
  getData loadtxt PATH_TO_DATA anchor_id_list n_samples = Some (c, n') →
  anchor_id_list !! i = Some anchor_id →
  loadtxt (PATH_TO_DATA +:+ "/" +:+ anchor_id +:+ "_ranging_data.txt")
  = Some (Loaded2 [r0; r1]) →
  length r1 = length anchor_id_list →
  c !! i = Some (replicate (Z.to_nat n') r1).
Proof.
  unfold getData. case_bool_decide as Hn; [done|].
  destruct (mapM _ anchor_id_list) as [planes|] eqn:Hplanes; cbn; [|done].
  intros [= <- <-] Hid Hload Hcols.
  destruct (mapM_lookup _ _ _ _ _ Hplanes Hid) as (plane & Hplane & Hb).
  rewrite Hload in Hb. cbn in Hb. unfold broadcast_row in Hb.
  rewrite bool_decide_true in Hb by done. cbn in Hb.
  case_bool_decide as Hs.
  - rewrite <- Hs. cbn. congruence.
  - congruence.
Qed.

End GetDataFacts.

(** ** The theorems at concrete inputs *)

Lemma coordinatesOpt_is_pinv_witness :
  (2 ≤ length pair_coords)%nat
  ∧ length pair_ranges = length pair_coords
  ∧ coordinatesOpt (L := Standin.libs) pair_coords pair_ranges
    = Some (dot (Standin.pinv_one_row (Spec.A pair_coords)) (Spec.b pair_coords pair_ranges)).
Proof.
  split; [simpl; lia|]. split; [reflexivity|].
  refine (proj1 (coordinatesOpt_is_pinv (L := Standin.libs) pair_coords pair_ranges _ _));
    [simpl; lia|reflexivity].
Defined.

Lemma stageOne_refines_spec_witness :
  axes_heap !! initial_guess axes_solver_2 = Some axes_guess
  ∧ stageOne_samples (L := Standin.libs) axes_solver_2 (Some 0%nat) = Some axes_ranges
  ∧ fst <$> (do s <- stageOne (L := Standin.libs) axes_solver_2 (Some 0%nat);
             load (autocalibrated_coords s)) axes_heap
    = Spec.refine (L := Standin.libs) (coordinatesOpt (L := Standin.libs))
        axes_ranges axes_guess (fixed_anchors axes_solver_2) (max_iters axes_solver_2)
        (convergence_thresh axes_solver_2) (LSq_min_anchors axes_solver_2).
Proof.
  split; [reflexivity|]. split; [reflexivity|].
  refine (proj1 (stageOne_refines_spec (L := Standin.libs) axes_solver_2 (Some 0%nat)
                   axes_heap axes_guess axes_ranges sqrt_floor_nonneg eq_refl eq_refl _)).
  intros [|[|[|i]]] Hi; [by_evaluation..|simpl in Hi; lia].
Defined.

Lemma self_entry_excluded_witness :
  axes_heap !! 0%nat = Some axes_guess
  ∧ gather 0%nat axes_ranges 3 2 axes_heap
    = (nbs ← Spec.neighbours axes_ranges axes_guess 3 2; Some ((nbs.*1, nbs.*2), axes_heap)).
Proof.
  split; [reflexivity|].
  refine (proj1 (self_entry_excluded 0%nat axes_ranges axes_guess 3 2 axes_heap
                   axes_ranges axes_fixed axes_guess (concat axes_guess) eq_refl _)).
  intros d Hd. injection Hd as <-. by_evaluation.
Defined.

Lemma stageTwo_frame_witness :
  stageTwo (L := Standin.libs) axes_solver (Some 0%nat) axes_heap
  = Some (3%nat, [axes_guess; axes_guess; axes_guess; axes_refined])
  ∧ [axes_guess; axes_guess; axes_guess; axes_refined] !! autocalibrated_coords axes_solver
    = axes_heap !! autocalibrated_coords axes_solver.
Proof.
  assert (stageTwo (L := Standin.libs) axes_solver (Some 0%nat) axes_heap
          = Some (3%nat, [axes_guess; axes_guess; axes_guess; axes_refined])) as Hrun
    by by_evaluation.
  split; [exact Hrun|].
  apply (stageTwo_frame (L := Standin.libs) axes_solver (Some 0%nat) axes_heap _ 3%nat Hrun).
Defined.

Lemma costOpt_pins_transposed_rows_witness :
  (∀ f x, length (Standin.fmin_probe f x) = length x)
  ∧ ∃ r h' Θ,
      costOpt (L := Standin.libs) 0%nat two_ranges two_fixed false [two_coords] = Some (r, h')
      ∧ h' !! r = Some Θ
      ∧ Θ !! 0%nat = Some [num 1; num 4; num 2].
Proof.
  split; [exact fmin_probe_length|].
  destruct (costOpt_pins_transposed_rows (L := Standin.libs) fmin_probe_length)
    as (_ & r & h' & Θ & Hrun & Hr & Hrow & _).
  exists r, h', Θ. exact (conj Hrun (conj Hr Hrow)).
Defined.

Lemma costOpt_cost_increase_witness :
  (∀ f x, length (Standin.fmin_probe f x) = length x)
  ∧ ∃ r h' Θ,
      costOpt (L := Standin.libs) 0%nat tri_ranges tri_fixed false [tri_coords] = Some (r, h')
      ∧ h' !! r = Some Θ
      ∧ stage2_cost tri_ranges Θ = num 512.
Proof.
  split; [exact fmin_probe_length|].
  destruct (costOpt_cost_increase (L := Standin.libs) fmin_probe_length)
    as (_ & _ & r & h' & Θ & Hrun & Hr & Hcost & _).
  exists r, h', Θ. exact (conj Hrun (conj Hr Hcost)).
Defined.

(** ** The further theorems at concrete inputs *)

Import MoreExamples.

Lemma stageOne_keeps_starved_witness :
  axes_heap !! initial_guess axes_solver = Some axes_guess
  ∧ stageOne (L := Standin.libs) axes_solver (Some 0%nat) axes_heap
    = Some (set_autocalibrated_coords axes_solver 1, [axes_guess; axes_guess; axes_guess])
  ∧ stageOne_samples (L := Standin.libs) axes_solver (Some 0%nat) = Some axes_ranges
  ∧ axes_ranges !! 2%nat = Some [num 3; num 5; num (-1)]
  ∧ ∃ est, [axes_guess; axes_guess; axes_guess]
           !! autocalibrated_coords (set_autocalibrated_coords axes_solver 1) = Some est
           ∧ length est = length axes_guess
           ∧ est !! 2%nat = axes_guess !! 2%nat.
Proof.
  assert (stageOne (L := Standin.libs) axes_solver (Some 0%nat) axes_heap
          = Some (set_autocalibrated_coords axes_solver 1,
                  [axes_guess; axes_guess; axes_guess])) as Hrun by by_evaluation.
  assert (stageOne_samples (L := Standin.libs) axes_solver (Some 0%nat) = Some axes_ranges)
    as Hsamples by by_evaluation.
  refine (conj eq_refl (conj Hrun (conj Hsamples (conj eq_refl _)))).
  refine (stageOne_keeps_starved (L := Standin.libs) axes_solver _ (Some 0%nat) axes_heap _
            axes_guess axes_ranges 2 [num 3; num 5; num (-1)] eq_refl Hrun Hsamples eq_refl _).
  by_evaluation.
Defined.

Lemma stageOne_frame_witness :
  stageOne (L := Standin.libs) axes_solver_2 (Some 0%nat) axes_heap
  = Some (set_autocalibrated_coords axes_solver_2 1,
          [axes_guess; axes_stage_one; axes_guess; axes_stage_one])
  ∧ [axes_guess; axes_stage_one; axes_guess; axes_stage_one] !! 0%nat = Some axes_guess
  ∧ axes_heap !! autocalibrated_coords (set_autocalibrated_coords axes_solver_2 1) = None.
Proof.
  assert (stageOne (L := Standin.libs) axes_solver_2 (Some 0%nat) axes_heap
          = Some (set_autocalibrated_coords axes_solver_2 1,
                  [axes_guess; axes_stage_one; axes_guess; axes_stage_one])) as Hrun
    by by_evaluation.
  destruct (stageOne_frame (L := Standin.libs) axes_solver_2 _ (Some 0%nat) axes_heap _ Hrun)
    as (_ & Hkeep & Hfresh & _).
  exact (conj Hrun (conj (Hkeep 0%nat axes_guess eq_refl) Hfresh)).
Defined.

Lemma stageOne_fixed_rows_witness :
  axes_heap !! initial_guess axes_solver_2 = Some axes_guess
  ∧ stageOne (L := Standin.libs) axes_solver_2 (Some 0%nat) axes_heap
    = Some (set_autocalibrated_coords axes_solver_2 1,
            [axes_guess; axes_stage_one; axes_guess; axes_stage_one])
  ∧ ∃ est, [axes_guess; axes_stage_one; axes_guess; axes_stage_one]
           !! autocalibrated_coords (set_autocalibrated_coords axes_solver_2 1) = Some est
           ∧ length est = length axes_guess
           ∧ ∀ j, fixed_anchors axes_solver_2 !! j = Some true → est !! j = axes_guess !! j.
Proof.
  assert (stageOne (L := Standin.libs) axes_solver_2 (Some 0%nat) axes_heap
          = Some (set_autocalibrated_coords axes_solver_2 1,
                  [axes_guess; axes_stage_one; axes_guess; axes_stage_one])) as Hrun
    by by_evaluation.
  refine (conj eq_refl (conj Hrun _)).
  exact (stageOne_fixed_rows (L := Standin.libs) axes_solver_2 _ (Some 0%nat) axes_heap _
           axes_guess eq_refl Hrun).
Defined.

Lemma stageOne_depends_on_guess_witness :
  axes_heap !! initial_guess axes_solver_2 = axes_heap_2 !! initial_guess axes_solver_2
  ∧ fst <$> (do s <- stageOne (L := Standin.libs) axes_solver_2 (Some 0%nat);
             load (autocalibrated_coords s)) axes_heap
    = fst <$> (do s <- stageOne (L := Standin.libs) axes_solver_2 (Some 0%nat);
               load (autocalibrated_coords s)) axes_heap_2.
Proof.
  refine (conj eq_refl _).
  exact (stageOne_depends_on_guess (L := Standin.libs) axes_solver_2 (Some 0%nat)
           axes_heap axes_heap_2 eq_refl).
Defined.

Lemma stageOne_raises_without_neighbours_witness :
  stageOne_samples (L := Standin.libs) lost_solver (Some 0%nat) = Some lost_ranges
  ∧ fixed_anchors lost_solver !! 0%nat = Some false
  ∧ lost_ranges !! 0%nat = Some [num (-1); num (-1)]
  ∧ (LSq_min_anchors lost_solver ≤ 0)%Z
  ∧ max_iters lost_solver ≠ 0%nat
  ∧ stageOne (L := Standin.libs) lost_solver (Some 0%nat) lost_heap = None.
Proof.
  assert (stageOne_samples (L := Standin.libs) lost_solver (Some 0%nat) = Some lost_ranges)
    as Hsamples by by_evaluation.
  assert (LSq_min_anchors lost_solver ≤ 0)%Z as Hmin by by_evaluation.
  assert (max_iters lost_solver ≠ 0%nat) as Hiters by by_evaluation.
  refine (conj Hsamples (conj eq_refl (conj eq_refl (conj Hmin (conj Hiters _))))).
  refine (stageOne_raises_without_neighbours (L := Standin.libs) lost_solver (Some 0%nat)
            lost_heap lost_ranges 0 [num (-1); num (-1)] Hsamples _ eq_refl eq_refl _ _
            Hmin Hiters); by_evaluation.
Defined.

Lemma calibration_runs_independent_witness :
  calibration_run (L := Standin.libs) axes_solver 0 axes_heap
  = Some ((set_autocalibrated_coords axes_solver 1, 6%nat),
          [axes_guess; axes_guess; axes_guess; axes_guess; axes_guess; axes_refined;
           axes_guess])
  ∧ fst <$> (do '(s, out) <- calibration_run (L := Standin.libs)
                               (set_autocalibrated_coords axes_solver 1) 0;
             load out)
              [axes_guess; axes_guess; axes_guess; axes_guess; axes_guess; axes_refined;
               axes_guess]
    = fst <$> (do '(s, out) <- calibration_run (L := Standin.libs) axes_solver 0;
               load out) axes_heap.
Proof.
  assert (calibration_run (L := Standin.libs) axes_solver 0 axes_heap
          = Some ((set_autocalibrated_coords axes_solver 1, 6%nat),
                  [axes_guess; axes_guess; axes_guess; axes_guess; axes_guess;
                   axes_refined; axes_guess])) as Hrun by by_evaluation.
  refine (conj Hrun _).
  exact (calibration_runs_independent (L := Standin.libs) axes_solver _ 0 0 axes_heap _ _
           Hrun).
Defined.

Lemma calibration_run_returns_stage_one_witness :
  calibration_run (L := Standin.libs) axes_solver 0 axes_heap
  = Some ((set_autocalibrated_coords axes_solver 1, 6%nat),
          [axes_guess; axes_guess; axes_guess; axes_guess; axes_guess; axes_refined;
           axes_guess])
  ∧ ∃ h1 r h2,
      stageOne (L := Standin.libs) axes_solver (Some 0%nat) axes_heap
      = Some (set_autocalibrated_coords axes_solver 1, h1)
      ∧ stageTwo (L := Standin.libs) (set_autocalibrated_coords axes_solver 1)
          (Some 0%nat) h1 = Some (r, h2)
      ∧ [axes_guess; axes_guess; axes_guess; axes_guess; axes_guess; axes_refined;
         axes_guess] !! 6%nat
        = h1 !! autocalibrated_coords (set_autocalibrated_coords axes_solver 1)
      ∧ [axes_guess; axes_guess; axes_guess; axes_guess; axes_guess; axes_refined;
         axes_guess] !! autocalibrated_coords (set_autocalibrated_coords axes_solver 1)
        = h1 !! autocalibrated_coords (set_autocalibrated_coords axes_solver 1).
Proof.
  assert (calibration_run (L := Standin.libs) axes_solver 0 axes_heap
          = Some ((set_autocalibrated_coords axes_solver 1, 6%nat),
                  [axes_guess; axes_guess; axes_guess; axes_guess; axes_guess;
                   axes_refined; axes_guess])) as Hrun by by_evaluation.
  refine (conj Hrun _).
  exact (calibration_run_returns_stage_one (L := Standin.libs) axes_solver _ 0 axes_heap _ _
           Hrun).
Defined.

Lemma cost_zero_without_ranges_witness :
  (∀ i j r, lookup2 lost_ranges i j = Some r → r < 0)
  ∧ (my_opt_func lost_ranges 2 [false; false] two_coords (concat two_coords)).2 = 0.
Proof.
  assert (∀ i j r, lookup2 lost_ranges i j = Some r → r < 0) as Hneg.
  { intros [|[|i]] [|[|j]] r Hr; try discriminate Hr;
      injection Hr as <-; by_evaluation. }
  refine (conj Hneg _).
  exact (cost_zero_without_ranges lost_ranges 2 [false; false] two_coords
           (concat two_coords) Hneg).
Defined.

Lemma T_reshape3_entry_witness :
  Forall (λ r : vector, length r = 3%nat) two_coords
  ∧ ∃ a', T_reshape3 two_coords = Some a'
          ∧ length a' = length two_coords
          ∧ Forall (λ r, length r = 3%nat) a'
          ∧ ∀ r c, (r < length two_coords)%nat → (c < 3)%nat →
              lookup2 a' r c
              = lookup2 two_coords ((3 * r + c) `mod` length two_coords)
                        ((3 * r + c) `div` length two_coords).
Proof.
  assert (Forall (λ r : vector, length r = 3%nat) two_coords) as Hrows by by_evaluation.
  refine (conj Hrows _).
  exact (T_reshape3_entry two_coords Hrows).
Defined.

Lemma costOpt_fixed_rows_witness :
  costOpt (L := Standin.libs) 0%nat two_ranges two_fixed false [two_coords]
  = Some (3%nat, [two_coords; two_transposed; two_transposed;
                  ints [[1; 4; 2]; [4; 3; 6]]%Z])
  ∧ ∃ a a' res,
      [two_coords] !! 0%nat = Some a ∧ T_reshape3 a = Some a'
      ∧ [two_coords; two_transposed; two_transposed; ints [[1; 4; 2]; [4; 3; 6]]%Z]
        !! 3%nat = Some res
      ∧ length res = length a'
      ∧ Forall (λ row, length row = 3%nat) res
      ∧ ∀ i, two_fixed !! i = Some true → res !! i = a' !! i.
Proof.
  assert (costOpt (L := Standin.libs) 0%nat two_ranges two_fixed false [two_coords]
          = Some (3%nat, [two_coords; two_transposed; two_transposed;
                          ints [[1; 4; 2]; [4; 3; 6]]%Z])) as Hrun by by_evaluation.
  refine (conj Hrun _).
  exact (costOpt_fixed_rows (L := Standin.libs) 0%nat two_ranges two_fixed false
           [two_coords] _ 3%nat Hrun).
Defined.


Lemma estimationError_axis_signed_witness :
  err_heap !! autocalibrated_coords err_solver = Some err_est
  ∧ err_heap !! 1%nat = Some err_gt
  ∧ (-3 ≤ -3 < 3)%Z
  ∧ let k := Z.to_nat (if bool_decide (0 ≤ -3)%Z then -3 else 3 + -3) in
    estimationError (L := Standin.libs) err_solver 1%nat (Some (-3)%Z) err_heap
    = Some (Arr1 (zip_with (λ e t, default 0 (e !! k) - default 0 (t !! k)) err_est err_gt),
            err_heap)
    ∧ length (zip_with (λ e t, default 0 (e !! k) - default 0 (t !! k)) err_est err_gt)
      = length err_est.
Proof.
  assert (-3 ≤ -3 < 3)%Z as Hax by lia.
  refine (conj eq_refl (conj eq_refl (conj Hax _))).
  refine (estimationError_axis_signed (L := Standin.libs) err_solver 1%nat (-3)%Z err_heap
            err_est err_gt eq_refl eq_refl _ _ eq_refl Hax); by_evaluation.
Defined.

Lemma estimationError_axis_out_of_range_witness :
  err_heap !! autocalibrated_coords err_solver = Some err_est
  ∧ err_heap !! 1%nat = Some err_gt
  ∧ (3 < -3 ∨ 3 ≤ 3)%Z
  ∧ estimationError (L := Standin.libs) err_solver 1%nat (Some 3%Z) err_heap = None.
Proof.
  assert (3 < -3 ∨ 3 ≤ 3)%Z as Hax by lia.
  refine (conj eq_refl (conj eq_refl (conj Hax _))).
  refine (estimationError_axis_out_of_range (L := Standin.libs) err_solver 1%nat 3%Z
            err_heap err_est err_gt eq_refl eq_refl _ _ _ _ Hax); by_evaluation.
Defined.

Lemma filtered_sample_rule_witness :
  stageTwo_samples (L := Standin.libs) five_solver (Some 1%nat)
  = Some (ints [[-1; -1]; [-1; -1]]%Z)
  ∧ samples_ijk five_solver !! 0%nat
    = Some (ints [[1; 1]; [2; 2]; [3; 3]; [4; 4]; [5; 5]]%Z)
  ∧ column (ints [[1; 1]; [2; 2]; [3; 3]; [4; 4]; [5; 5]]%Z) 1
    = Some [num 1; num 2; num 3; num 4; num 5]
  ∧ lookup2 (ints [[-1; -1]; [-1; -1]]%Z) 0 1
    = Some (if bool_decide
                 (Standin.percentile_linear [num 1; num 2; num 3; num 4; num 5]
                    (lower_percentile five_solver) ≤ num 2
                  ∧ num 2 ≤ Standin.percentile_linear [num 1; num 2; num 3; num 4; num 5]
                              (upper_percentile five_solver))
            then num 2 else - 1).
Proof.
  assert (stageTwo_samples (L := Standin.libs) five_solver (Some 1%nat)
          = Some (ints [[-1; -1]; [-1; -1]]%Z)) as Hout by by_evaluation.
  assert (column (ints [[1; 1]; [2; 2]; [3; 3]; [4; 4]; [5; 5]]%Z) 1
          = Some [num 1; num 2; num 3; num 4; num 5]) as Hcol by by_evaluation.
  refine (conj Hout (conj eq_refl (conj Hcol _))).
  exact (filtered_sample_rule (L := Standin.libs) five_solver 1 0 1 _ _ [num 2; num 2] _
           (num 2) Hout eq_refl eq_refl eq_refl Hcol).
Defined.

Lemma filtered_sample_keeps_missing_witness :
  stageTwo_samples (L := Standin.libs) gap_solver (Some 0%nat) = Some lost_ranges
  ∧ samples_ijk gap_solver !! 0%nat = Some (ints [[-1; 5]; [-1; 6]]%Z)
  ∧ column (ints [[-1; 5]; [-1; 6]]%Z) 0 = Some [num (-1); num (-1)]
  ∧ num (-1) < 0
  ∧ ∃ w, lookup2 lost_ranges 0 0 = Some w ∧ w < 0.
Proof.
  assert (stageTwo_samples (L := Standin.libs) gap_solver (Some 0%nat) = Some lost_ranges)
    as Hout by by_evaluation.
  assert (column (ints [[-1; 5]; [-1; 6]]%Z) 0 = Some [num (-1); num (-1)]) as Hcol
    by by_evaluation.
  assert (num (-1) < 0) as Hneg by by_evaluation.
  refine (conj Hout (conj eq_refl (conj Hcol (conj Hneg _)))).
  exact (filtered_sample_keeps_missing (L := Standin.libs) gap_solver 0 0 0 _ _
           [num (-1); num 5] _ (num (-1)) Hout eq_refl eq_refl eq_refl Hcol Hneg).
Defined.

Lemma median_matrix_entries_witness :
  median_matrix (L := Standin.libs) gap_cube
  = Some [[num (-1); frac 11 2]; [frac 11 2; num (-1)]]
  ∧ lookup2 [[num (-1); frac 11 2]; [frac 11 2; num (-1)]] 0 1
    = Some (if bool_decide (filter (λ x, 0 < x) [num 5; num 6] = [])
            then - 1 else Standin.median (filter (λ x, 0 < x) [num 5; num 6])).
Proof.
  assert (median_matrix (L := Standin.libs) gap_cube
          = Some [[num (-1); frac 11 2]; [frac 11 2; num (-1)]]) as Hout by by_evaluation.
  assert (column (ints [[-1; 5]; [-1; 6]]%Z) 1 = Some [num 5; num 6]) as Hcol
    by by_evaluation.
  assert (1 < length gap_cube)%nat as Hk by by_evaluation.
  refine (conj Hout _).
  exact (proj2 (proj2 (median_matrix_entries (L := Standin.libs) gap_cube _ Hout))
           0%nat 1%nat _ _ eq_refl Hcol Hk).
Defined.

Lemma coordinatesOpt_system_exact_witness :
  (2 ≤ length pair_coords)%nat
  ∧ Forall2 (λ c r, sq r = vsum (map sq (vsub exact_point c))) pair_coords exact_ranges
  ∧ coordinatesOpt (L := Standin.libs) pair_coords exact_ranges
    = Some (dot (Standin.pinv_one_row (Spec.A pair_coords))
                (Spec.b pair_coords exact_ranges))
  ∧ dot (Spec.A pair_coords) exact_point = Spec.b pair_coords exact_ranges.
Proof.
  assert (2 ≤ length pair_coords)%nat as HK by by_evaluation.
  assert (Forall (λ c : vector, length c = 3%nat) pair_coords) as Hrows by by_evaluation.
  assert (Forall2 (λ c r, sq r = vsum (map sq (vsub exact_point c)))
                  pair_coords exact_ranges) as Hexact by by_evaluation.
  refine (conj HK (conj Hexact _)).
  exact (coordinatesOpt_system_exact (L := Standin.libs) pair_coords exact_ranges
           exact_point HK Hrows eq_refl Hexact).
Defined.

Lemma getData_shape_witness :
  getData disk "data" disk_ids 3
  = Some ([ints [[-1; 7]; [-1; 8]]%Z; ints [[-1; -1]; [-1; -1]]%Z], 2%Z)
  ∧ 2%Z = (3 - 1)%Z ∧ (0 ≤ 2)%Z
  ∧ length [ints [[-1; 7]; [-1; 8]]%Z; ints [[-1; -1]; [-1; -1]]%Z] = length disk_ids
  ∧ Forall (λ plane : matrix,
              length plane = Z.to_nat 2
              ∧ Forall (λ row, length row = length disk_ids) plane)
           [ints [[-1; 7]; [-1; 8]]%Z; ints [[-1; -1]; [-1; -1]]%Z].
Proof.
  assert (getData disk "data" disk_ids 3
          = Some ([ints [[-1; 7]; [-1; 8]]%Z; ints [[-1; -1]; [-1; -1]]%Z], 2%Z)) as Hrun
    by by_evaluation.
  refine (conj Hrun _).
  exact (getData_shape disk "data" disk_ids 3 _ _ Hrun).
Defined.

Lemma getData_missing_file_witness :
  getData disk "data" disk_ids 3
  = Some ([ints [[-1; 7]; [-1; 8]]%Z; ints [[-1; -1]; [-1; -1]]%Z], 2%Z)
  ∧ disk_ids !! 1%nat = Some "a2"%string
  ∧ disk ("data" +:+ "/" +:+ "a2" +:+ "_ranging_data.txt") = None
  ∧ [ints [[-1; 7]; [-1; 8]]%Z; ints [[-1; -1]; [-1; -1]]%Z] !! 1%nat
    = Some (replicate (Z.to_nat 2) (replicate (length disk_ids) (- 1))).
Proof.
  assert (getData disk "data" disk_ids 3
          = Some ([ints [[-1; 7]; [-1; 8]]%Z; ints [[-1; -1]; [-1; -1]]%Z], 2%Z)) as Hrun
    by by_evaluation.
  assert (disk ("data" +:+ "/" +:+ "a2" +:+ "_ranging_data.txt") = None) as Hfile
    by (vm_compute; reflexivity).
  refine (conj Hrun (conj eq_refl (conj Hfile _))).
  exact (getData_missing_file disk "data" disk_ids 3 _ _ 1 "a2" Hrun eq_refl Hfile).
Defined.

Lemma getData_reads_file_witness :
  getData disk "data" disk_ids 3
  = Some ([ints [[-1; 7]; [-1; 8]]%Z; ints [[-1; -1]; [-1; -1]]%Z], 2%Z)
  ∧ disk_ids !! 0%nat = Some "a1"%string
  ∧ disk ("data" +:+ "/" +:+ "a1" +:+ "_ranging_data.txt") = Some (Loaded2 disk_a1)
  ∧ Z.of_nat (length disk_a1) = 3%Z
  ∧ [ints [[-1; 7]; [-1; 8]]%Z; ints [[-1; -1]; [-1; -1]]%Z] !! 0%nat
    = Some (drop 1 disk_a1).
Proof.
  assert (getData disk "data" disk_ids 3
          = Some ([ints [[-1; 7]; [-1; 8]]%Z; ints [[-1; -1]; [-1; -1]]%Z], 2%Z)) as Hrun
    by by_evaluation.
  assert (disk ("data" +:+ "/" +:+ "a1" +:+ "_ranging_data.txt") = Some (Loaded2 disk_a1))
    as Hfile by (vm_compute; reflexivity).
  assert (Forall (λ row : vector, length row = length disk_ids) disk_a1) as Hrows
    by by_evaluation.
  refine (conj Hrun (conj eq_refl (conj Hfile (conj eq_refl _)))).
  exact (getData_reads_file disk "data" disk_ids 3 _ _ 0 "a1" disk_a1 Hrun eq_refl Hfile
           eq_refl Hrows).
Defined.

Lemma getData_wrong_length_raises_witness :
  disk_ids !! 0%nat = Some "a1"%string
  ∧ disk ("data" +:+ "/" +:+ "a1" +:+ "_ranging_data.txt") = Some (Loaded2 disk_a1)
  ∧ Z.of_nat (length disk_a1) ≠ 5%Z
  ∧ length disk_a1 ≠ 2%nat
  ∧ getData disk "data" disk_ids 5 = None.
Proof.
  assert (disk ("data" +:+ "/" +:+ "a1" +:+ "_ranging_data.txt") = Some (Loaded2 disk_a1))
    as Hfile by (vm_compute; reflexivity).
  assert (Forall (λ row : vector, length row = length disk_ids) disk_a1) as Hrows
    by by_evaluation.
  assert (1 ≤ length disk_a1)%nat as Hone by by_evaluation.
  assert (Z.of_nat (length disk_a1) ≠ 5%Z) as Hlen by by_evaluation.
  assert (length disk_a1 ≠ 2%nat) as Htwo by by_evaluation.
  refine (conj eq_refl (conj Hfile (conj Hlen (conj Htwo _)))).
  exact (getData_wrong_length_raises disk "data" disk_ids 5 0 "a1" disk_a1 eq_refl Hfile
           Hrows Hone Hlen Htwo).
Defined.

Lemma getData_two_rows_repeated_witness :
  getData short_disk "data" disk_ids 4
  = Some ([ints [[-1; 7]; [-1; 7]; [-1; 7]]%Z;
           ints [[-1; -1]; [-1; -1]; [-1; -1]]%Z], 3%Z)
  ∧ disk_ids !! 0%nat = Some "a1"%string
  ∧ short_disk ("data" +:+ "/" +:+ "a1" +:+ "_ranging_data.txt")
    = Some (Loaded2 [[num (-1); num (-1)]; [num (-1); num 7]])
  ∧ [ints [[-1; 7]; [-1; 7]; [-1; 7]]%Z; ints [[-1; -1]; [-1; -1]; [-1; -1]]%Z] !! 0%nat
    = Some (replicate (Z.to_nat 3) [num (-1); num 7]).
Proof.
  assert (getData short_disk "data" disk_ids 4
          = Some ([ints [[-1; 7]; [-1; 7]; [-1; 7]]%Z;
                   ints [[-1; -1]; [-1; -1]; [-1; -1]]%Z], 3%Z)) as Hrun by by_evaluation.
  assert (short_disk ("data" +:+ "/" +:+ "a1" +:+ "_ranging_data.txt")
          = Some (Loaded2 [[num (-1); num (-1)]; [num (-1); num 7]])) as Hfile
    by (vm_compute; reflexivity).
  refine (conj Hrun (conj eq_refl (conj Hfile _))).
  exact (getData_two_rows_repeated short_disk "data" disk_ids 4 _ _ 0 "a1" _ _ Hrun eq_refl
           Hfile eq_refl).
Defined.

Lemma coordinatesOpt_raises_iff_witness :
  length pair_ranges = length pair_coords
  ∧ (coordinatesOpt (L := Standin.libs) pair_coords pair_ranges = None ↔ pair_coords = []).
Proof.
  refine (conj eq_refl _).
  exact (coordinatesOpt_raises_iff (L := Standin.libs) pair_coords pair_ranges eq_refl).
Defined.
